(** * AI Travel Itinerary Planner (main.py): response normalisation,
      session state, rendering and text export.

    The program is a Streamlit script.  Its pure parts are embedded as Rocq
    functions; the script's effects (widgets drawn, model calls, exceptions)
    are threaded through a small writer/exception monad; the session state
    is passed explicitly.

    Python values that the script handles are modelled as follows.
    - [str]: a list of characters; a character is an [ascii], read as a
      code point in 0..255.
    - JSON numbers: Python [int]s, as [Z].  A number written with a
      fraction or an exponent, which [json.loads] reads as a [float], has
      no value here: what is said of parsed and stored values is said of
      values whose numbers are integers.
    - The display prints amounts through a [float] (lines 297, 299, 313).
      [fmt_f0], [truediv] and [fmt_money] compute on the exact integers
      and quotients; that is what the code prints for integers below 2^48
      in magnitude (see [Scope.exact_amount]), and beyond the range of a
      [float] the code raises [OverflowError] where they return a text.
      Statements that depend on a printed amount or on the formatting
      succeeding carry the bound as a hypothesis.
    - [dict]: an association list in insertion order, keys unique. *)

From Stdlib Require Import List String Ascii Bool Arith ZArith QArith Lia.
From Stdlib Require Import DecimalString.
Import ListNotations.
Close Scope Q_scope.

Set Implicit Arguments.

(* ================================================================== *)
(** ** Python [str] primitives used by the script *)
(* ================================================================== *)

Module PyStr.

Definition str := list ascii.

(** String literals of the source are written [lit "..."]. *)
Definition lit (s : string) : str := list_ascii_of_string s.

(** A literal in which each apostrophe stands for a double quote. *)
Definition jlit (s : string) : str :=
  map (fun c => if Ascii.eqb c "'"%char then "034"%char else c) (lit s).

(** [a == b] *)
Fixpoint str_eqb (a b : str) : bool :=
  match a, b with
  | [], [] => true
  | x :: a', y :: b' => Ascii.eqb x y && str_eqb a' b'
  | _, _ => false
  end.

(** [str.isspace] on one character, for code points below 256:
    TAB LF VT FF CR, FS GS RS US, space, NEL and NBSP. *)
Definition is_space (c : ascii) : bool :=
  let n := nat_of_ascii c in
  ((9 <=? n) && (n <=? 13)) || ((28 <=? n) && (n <=? 32))
  || (n =? 133) || (n =? 160).

(** [s.startswith(p)] *)
Fixpoint starts_with (p s : str) : bool :=
  match p, s with
  | [], _ => true
  | _ :: _, [] => false
  | a :: p', b :: s' => Ascii.eqb a b && starts_with p' s'
  end.

(** [p in s] *)
Fixpoint contains (p s : str) : bool :=
  starts_with p s ||
  match s with
  | [] => false
  | _ :: s' => contains p s'
  end.

(** [s.lstrip()], [s.rstrip()], [s.strip()] *)
Fixpoint lstrip (s : str) : str :=
  match s with
  | [] => []
  | c :: s' => if is_space c then lstrip s' else s
  end.

Definition rstrip (s : str) : str := rev (lstrip (rev s)).

Definition strip (s : str) : str := rstrip (lstrip s).

(** [s.split(sep)] for a non-empty separator: the text is cut at the
    non-overlapping occurrences of [sep], scanned left to right.  [skip]
    counts the characters of a matched separator still to be passed over,
    [cur] is the current piece, reversed. *)
Fixpoint split_go (sep : str) (skip : nat) (cur : str) (s : str) : list str :=
  match s with
  | [] => [rev cur]
  | c :: s' =>
      match skip with
      | S k => split_go sep k cur s'
      | O =>
          if starts_with sep s
          then rev cur :: split_go sep (pred (List.length sep)) [] s'
          else split_go sep O (c :: cur) s'
      end
  end.

Definition split (sep s : str) : list str := split_go sep 0 [] s.

(** [s[:n]] *)
Definition slice_to (n : nat) (s : str) : str := firstn n s.

(** [sep.join(parts)] *)
Fixpoint join (sep : str) (parts : list str) : str :=
  match parts with
  | [] => []
  | [p] => p
  | p :: rest => p ++ sep ++ join sep rest
  end.

(** [s.replace(a, b)] for single characters. *)
Definition replace_char (a b : ascii) (s : str) : str :=
  map (fun c => if Ascii.eqb c a then b else c) s.

(** [str(z)] for a Python [int]. *)
Definition str_of_Z (z : Z) : str :=
  lit (NilZero.string_of_int (Z.to_int z)).

(** [c * n] for a one-character string [c]. *)
Definition repeat_char (c : ascii) (n : nat) : str := repeat c n.

End PyStr.
Import PyStr.


(* ================================================================== *)
(** ** JSON values and the Python operations the script applies to them *)
(* ================================================================== *)

Module Json.

(** What [json.loads] returns: [None], [bool], [int], [str], [list],
    [dict] with [str] keys.  A [float] (number with a fraction or an
    exponent) is not among the values. *)
#[warnings="-register-all"]
Inductive json : Type :=
| JNull
| JBool (b : bool)
| JNum (n : Z)
| JStr (s : str)
| JArr (items : list json)
| JObj (fields : list (str * json)).

Definition dict := list (str * json).

(** Exceptions the script can meet. *)
Inductive exn : Type :=
| KeyError (key : str)
| TypeError
| ValueError
| IndexError
| AttributeError
| ZeroDivisionError
| JSONDecodeError
| StreamlitAPIException
| ClientError (msg : str)
| RerunException.

(** Outcome of an expression: a value or a raised exception. *)
Inductive res (A : Type) : Type :=
| Ok (a : A)
| Raise (e : exn).
Arguments Ok {A} a.
Arguments Raise {A} e.

Definition rbind {A B} (m : res A) (k : A -> res B) : res B :=
  match m with
  | Ok a => k a
  | Raise e => Raise e
  end.

(** [d.get(k)] on the association list. *)
Fixpoint dict_get (k : str) (d : dict) : option json :=
  match d with
  | [] => None
  | (k', v) :: d' => if str_eqb k' k then Some v else dict_get k d'
  end.

(** [d[k] = v]: an existing key keeps its place, a new key goes last. *)
Fixpoint dict_set (k : str) (v : json) (d : dict) : dict :=
  match d with
  | [] => [(k, v)]
  | (k', v') :: d' =>
      if str_eqb k' k then (k', v) :: d' else (k', v') :: dict_set k v d'
  end.

(** [v[k]] with a [str] key. *)
Definition getitem (v : json) (k : str) : res json :=
  match v with
  | JObj d => match dict_get k d with
              | Some x => Ok x
              | None => Raise (KeyError k)
              end
  | _ => Raise TypeError
  end.

(** [v.get(k, default)]; only a [dict] has the method. *)
Definition get_default (v : json) (k : str) (default : json) : res json :=
  match v with
  | JObj d => match dict_get k d with
              | Some x => Ok x
              | None => Ok default
              end
  | _ => Raise AttributeError
  end.

(** [v[k] = x] *)
Definition setitem (v : json) (k : str) (x : json) : res json :=
  match v with
  | JObj d => Ok (JObj (dict_set k x d))
  | _ => Raise TypeError
  end.

(** [l[i]] on a list of strings. *)
Definition index (l : list str) (i : nat) : res str :=
  match nth_error l i with
  | Some x => Ok x
  | None => Raise IndexError
  end.

(** [bool(v)] *)
Definition truthy (v : json) : bool :=
  match v with
  | JNull => false
  | JBool b => b
  | JNum n => negb (n =? 0)%Z
  | JStr s => match s with [] => false | _ => true end
  | JArr l => match l with [] => false | _ => true end
  | JObj d => match d with [] => false | _ => true end
  end.

(** [for x in v]: the items of a list, the keys of a dict, the characters
    of a string. *)
Definition py_iter (v : json) : res (list json) :=
  match v with
  | JArr l => Ok l
  | JObj d => Ok (map (fun kv => JStr (fst kv)) d)
  | JStr s => Ok (map (fun c => JStr [c]) s)
  | _ => Raise TypeError
  end.

(** [len(v)] *)
Definition py_len (v : json) : res nat :=
  match v with
  | JArr l => Ok (List.length l)
  | JObj d => Ok (List.length d)
  | JStr s => Ok (List.length s)
  | _ => Raise TypeError
  end.

(** The numeric value of an [int] or a [bool]. *)
Definition as_int (v : json) : option Z :=
  match v with
  | JNum n => Some n
  | JBool b => Some (if b then 1 else 0)%Z
  | _ => None
  end.

(** [v / n] with [n] an [int]: true division, as the exact quotient.
    Python returns the nearest [float], and raises [OverflowError] when
    that is out of range; see [Scope.exact_amount] for where the rounding
    does not show in the text drawn. *)
Definition truediv (v : json) (n : Z) : res Q :=
  match as_int v with
  | Some t => if (n =? 0)%Z then Raise ZeroDivisionError
              else Ok (inject_Z t / inject_Z n)%Q
  | None => Raise TypeError
  end.

(** *** Text of a value

    [repr] and [str] of the values above, as f-strings interpolate them. *)

Definition hex_digit (n : nat) : ascii :=
  ascii_of_nat (if n <? 10 then 48 + n else 87 + n).

(** Two lower-case hexadecimal digits of a code point. *)
Definition hex2 (c : ascii) : str :=
  let n := nat_of_ascii c in [hex_digit (n / 16); hex_digit (n mod 16)].

(** [str.isprintable] on one character, for code points below 256. *)
Definition is_printable (c : ascii) : bool :=
  let n := nat_of_ascii c in
  ((32 <=? n) && (n <=? 126)) || ((161 <=? n) && negb (n =? 173)).

Definition repr_char (quote : ascii) (c : ascii) : str :=
  if Ascii.eqb c quote || Ascii.eqb c "\"%char then ["\"%char; c]
  else if Ascii.eqb c "009"%char then lit "\t"
  else if Ascii.eqb c "010"%char then lit "\n"
  else if Ascii.eqb c "013"%char then lit "\r"
  else if is_printable c then [c]
  else lit "\x" ++ hex2 c.

(** [repr(s)]: single quotes, unless the text has a single quote and no
    double quote. *)
Definition repr_str (s : str) : str :=
  let has c := existsb (Ascii.eqb c) s in
  let quote := if has "'"%char && negb (has "034"%char)
               then "034"%char else "'"%char in
  quote :: flat_map (repr_char quote) s ++ [quote].

Fixpoint py_repr (v : json) : str :=
  match v with
  | JNull => lit "None"
  | JBool true => lit "True"
  | JBool false => lit "False"
  | JNum n => str_of_Z n
  | JStr s => repr_str s
  | JArr l => lit "[" ++ join (lit ", ") (map py_repr l) ++ lit "]"
  | JObj d =>
      lit "{" ++
      join (lit ", ")
           (map (fun kv => repr_str (fst kv) ++ lit ": " ++ py_repr (snd kv)) d)
      ++ lit "}"
  end.

(** [f"{v}"] *)
Definition py_str (v : json) : str :=
  match v with
  | JStr s => s
  | _ => py_repr v
  end.

(** Digits in groups of three, as the [,] format option prints them. *)
Fixpoint group3 (rev_digits : str) (pos : nat) : str :=
  match rev_digits with
  | [] => []
  | c :: rest =>
      match pos, rest with
      | 2, _ :: _ => group3 rest 0 ++ [","%char; c]
      | _, _ => group3 rest (S pos) ++ [c]
      end
  end.

Definition with_commas (z : Z) : str :=
  let body := group3 (rev (str_of_Z (Z.abs z))) 0 in
  if (z <? 0)%Z then "-"%char :: body else body.

(** Nearest integer, ties to even. *)
Definition round_half_even (q : Q) : Z :=
  let n := Qnum q in
  let d := Zpos (Qden q) in
  let f := (n / d)%Z in
  let r := (2 * (n mod d))%Z in
  if (r <? d)%Z then f
  else if (d <? r)%Z then (f + 1)%Z
  else if Z.even f then f else (f + 1)%Z.

(** [f"{x:,.0f}"] for the quotient of two integers.  The quotient is kept
    exact, where Python formats the nearest [float]: the texts agree for
    a dividend below 2^48 in magnitude and a divisor from 1 to 20.  A
    negative value that rounds to zero prints as [-0]. *)
Definition fmt_money (q : Q) : str :=
  let z := round_half_even q in
  if (z =? 0)%Z && (Qnum q <? 0)%Z then lit "-0" else with_commas z.

(** [f"{v:,.0f}"] and [f"{v:.0f}"] on a value: an [int] or [bool] is
    printed, a [str] is refused with [ValueError], anything else with
    [TypeError].  Python converts the integer to a [float] first: the
    text is the integer itself up to 2^53 in magnitude, a rounded one
    above, and [OverflowError] is raised beyond the range of a [float]
    (see [Scope.in_float_range]); the integer is printed as it is here. *)
Definition fmt_f0 (commas : bool) (v : json) : res str :=
  match v with
  | JStr _ => Raise ValueError
  | _ => match as_int v with
         | Some z => Ok (if commas then with_commas z else str_of_Z z)
         | None => Raise TypeError
         end
  end.

Definition is_lower (c : ascii) : bool :=
  let n := nat_of_ascii c in (97 <=? n) && (n <=? 122).
Definition is_upper (c : ascii) : bool :=
  let n := nat_of_ascii c in (65 <=? n) && (n <=? 90).
Definition to_upper (c : ascii) : ascii :=
  if is_lower c then ascii_of_nat (nat_of_ascii c - 32) else c.
Definition to_lower (c : ascii) : ascii :=
  if is_upper c then ascii_of_nat (nat_of_ascii c + 32) else c.

(** [s.title()], letters being the ASCII letters: a letter that follows a
    letter is lowered, any other letter is raised.  [str.title] also
    cases the accented letters above code point 127, which are left as
    they are here; no statement below depends on the text returned. *)
Fixpoint title_go (prev_cased : bool) (s : str) : str :=
  match s with
  | [] => []
  | c :: s' =>
      let cased := is_lower c || is_upper c in
      (if prev_cased then to_lower c else to_upper c) :: title_go cased s'
  end.

(** [v.title()]; only a [str] has the method. *)
Definition title (v : json) : res str :=
  match v with
  | JStr s => Ok (title_go false s)
  | _ => Raise AttributeError
  end.

End Json.
Import Json.

Declare Scope res_scope.
Delimit Scope res_scope with res.
Notation "x <- m ;; k" := (rbind m (fun x => k))
  (at level 61, m at next level, right associativity) : res_scope.

(* ================================================================== *)
(** ** The [json] library: serialisation and a reference parser *)
(* ================================================================== *)

Module JsonLib.

(** [json.dumps] with its defaults: separators [", "] and [": "], every
    character outside the printable ASCII range escaped. *)
Definition dumps_char (c : ascii) : str :=
  let n := nat_of_ascii c in
  if Ascii.eqb c "034"%char then ["\"%char; c]
  else if Ascii.eqb c "\"%char then lit "\\"
  else if n =? 10 then lit "\n"
  else if n =? 13 then lit "\r"
  else if n =? 9 then lit "\t"
  else if n =? 8 then lit "\b"
  else if n =? 12 then lit "\f"
  else if (32 <=? n) && (n <=? 126) then [c]
  else lit "\u00" ++ hex2 c.

Definition dumps_str (s : str) : str :=
  "034"%char :: flat_map dumps_char s ++ ["034"%char].

Fixpoint json_dumps (v : json) : str :=
  match v with
  | JNull => lit "null"
  | JBool true => lit "true"
  | JBool false => lit "false"
  | JNum n => str_of_Z n
  | JStr s => dumps_str s
  | JArr l => lit "[" ++ join (lit ", ") (map json_dumps l) ++ lit "]"
  | JObj d =>
      lit "{" ++
      join (lit ", ")
           (map (fun kv => dumps_str (fst kv) ++ lit ": " ++ json_dumps (snd kv)) d)
      ++ lit "}"
  end.

(** A reference [json.loads] for the values above: integers only (a
    number with a fraction or an exponent is outside the model and is
    refused), escapes up to code point 255.  It instantiates the parser in
    closed examples; the statements below quantify over the parser. *)

Definition is_json_ws (c : ascii) : bool :=
  let n := nat_of_ascii c in (n =? 32) || (n =? 9) || (n =? 10) || (n =? 13).

Fixpoint skip_ws (s : str) : str :=
  match s with
  | c :: s' => if is_json_ws c then skip_ws s' else s
  | [] => []
  end.

Definition digit_val (c : ascii) : option Z :=
  let n := nat_of_ascii c in
  if (48 <=? n) && (n <=? 57) then Some (Z.of_nat (n - 48)) else None.

Fixpoint parse_digits (acc : Z) (s : str) : Z * str :=
  match s with
  | c :: s' => match digit_val c with
               | Some d => parse_digits (10 * acc + d) s'
               | None => (acc, s)
               end
  | [] => (acc, s)
  end.

(** [0] or a digit run without a leading zero; no [.], [e] or [E] after. *)
Definition parse_nat (s : str) : option (Z * str) :=
  match s with
  | c :: s' =>
      match digit_val c with
      | Some d =>
          let (n, r) := if (d =? 0)%Z then (0%Z, s') else parse_digits d s' in
          match r with
          | c' :: _ =>
              if Ascii.eqb c' "."%char || Ascii.eqb c' "e"%char
                 || Ascii.eqb c' "E"%char
              then None else Some (n, r)
          | [] => Some (n, r)
          end
      | None => None
      end
  | [] => None
  end.

Definition parse_int (s : str) : option (json * str) :=
  match s with
  | c :: s' =>
      if Ascii.eqb c "-"%char
      then match parse_nat s' with
           | Some (n, r) => Some (JNum (- n), r)
           | None => None
           end
      else match parse_nat s with
           | Some (n, r) => Some (JNum n, r)
           | None => None
           end
  | [] => None
  end.

Definition hex_val (c : ascii) : option nat :=
  let n := nat_of_ascii c in
  if (48 <=? n) && (n <=? 57) then Some (n - 48)
  else if (97 <=? n) && (n <=? 102) then Some (n - 87)
  else if (65 <=? n) && (n <=? 70) then Some (n - 55)
  else None.

Definition unescape (c : ascii) : option ascii :=
  if Ascii.eqb c "034"%char then Some c
  else if Ascii.eqb c "\"%char then Some c
  else if Ascii.eqb c "/"%char then Some c
  else if Ascii.eqb c "b"%char then Some (ascii_of_nat 8)
  else if Ascii.eqb c "f"%char then Some (ascii_of_nat 12)
  else if Ascii.eqb c "n"%char then Some (ascii_of_nat 10)
  else if Ascii.eqb c "r"%char then Some (ascii_of_nat 13)
  else if Ascii.eqb c "t"%char then Some (ascii_of_nat 9)
  else None.

(** The text after an opening quote, up to the closing one. *)
Fixpoint parse_string (s : str) (acc : str) : option (str * str) :=
  match s with
  | [] => None
  | c :: s' =>
      if Ascii.eqb c "034"%char then Some (rev acc, s')
      else if Ascii.eqb c "\"%char then
        match s' with
        | e :: s'' =>
            if Ascii.eqb e "u"%char then
              match s'' with
              | h1 :: h2 :: h3 :: h4 :: r =>
                  match hex_val h1, hex_val h2, hex_val h3, hex_val h4 with
                  | Some 0, Some 0, Some a, Some b =>
                      parse_string r (ascii_of_nat (16 * a + b) :: acc)
                  | _, _, _, _ => None
                  end
              | _ => None
              end
            else match unescape e with
                 | Some x => parse_string s'' (x :: acc)
                 | None => None
                 end
        | [] => None
        end
      else if nat_of_ascii c <? 32 then None
      else parse_string s' (c :: acc)
  end.

Section Containers.
Variable parse_value : str -> option (json * str).

(** Items after [[], one already known to follow. *)
Fixpoint parse_items (n : nat) (s : str) (acc : list json)
  : option (json * str) :=
  match n with
  | O => None
  | S n' =>
      match parse_value s with
      | Some (v, r) =>
          match skip_ws r with
          | c :: r' =>
              if Ascii.eqb c ","%char then parse_items n' r' (v :: acc)
              else if Ascii.eqb c "]"%char
                   then Some (JArr (rev (v :: acc)), r')
                   else None
          | [] => None
          end
      | None => None
      end
  end.

(** Members after [{], one already known to follow; a repeated key keeps
    its last value. *)
Fixpoint parse_members (n : nat) (s : str) (acc : dict)
  : option (json * str) :=
  match n with
  | O => None
  | S n' =>
      match skip_ws s with
      | q :: r0 =>
          if Ascii.eqb q "034"%char then
            match parse_string r0 [] with
            | Some (k, r1) =>
                match skip_ws r1 with
                | c :: r2 =>
                    if Ascii.eqb c ":"%char then
                      match parse_value r2 with
                      | Some (v, r3) =>
                          match skip_ws r3 with
                          | c' :: r4 =>
                              if Ascii.eqb c' ","%char
                              then parse_members n' r4 (dict_set k v acc)
                              else if Ascii.eqb c' "}"%char
                                   then Some (JObj (dict_set k v acc), r4)
                                   else None
                          | [] => None
                          end
                      | None => None
                      end
                    else None
                | [] => None
                end
            | None => None
            end
          else None
      | [] => None
      end
  end.
End Containers.

Fixpoint parse_value (fuel : nat) (s : str) : option (json * str) :=
  match fuel with
  | O => None
  | S f =>
      let s := skip_ws s in
      if starts_with (lit "null") s then Some (JNull, skipn 4 s)
      else if starts_with (lit "true") s then Some (JBool true, skipn 4 s)
      else if starts_with (lit "false") s then Some (JBool false, skipn 5 s)
      else
        match s with
        | c :: r =>
            if Ascii.eqb c "034"%char then
              match parse_string r [] with
              | Some (x, r') => Some (JStr x, r')
              | None => None
              end
            else if Ascii.eqb c "["%char then
              match skip_ws r with
              | c' :: r' =>
                  if Ascii.eqb c' "]"%char then Some (JArr [], r')
                  else parse_items (parse_value f) (List.length r) r []
              | [] => None
              end
            else if Ascii.eqb c "{"%char then
              match skip_ws r with
              | c' :: r' =>
                  if Ascii.eqb c' "}"%char then Some (JObj [], r')
                  else parse_members (parse_value f) (List.length r) r []
              | [] => None
              end
            else parse_int s
        | [] => None
        end
  end.

Definition json_loads_ref (s : str) : option json :=
  match parse_value (S (List.length s)) s with
  | Some (v, r) => match skip_ws r with
                   | [] => Some v
                   | _ :: _ => None
                   end
  | None => None
  end.

End JsonLib.
Import JsonLib.


(* ================================================================== *)
(** ** Data model *)
(* ================================================================== *)

Module Model.

Inductive budget_level := Low | Medium | High.
Inductive group_kind := Solo | Couple | Family | Friends.
Inductive pace_kind := Relaxed | Moderate | Packed.
Inductive accommodation_kind := Budget | MidRange | Luxury.

(** The sidebar inputs, which are also the eight arguments of
    [generate_itinerary_with_gemini]. *)
Record TripRequest := {
  destination : str;
  num_days : Z;
  num_people : Z;
  budget : budget_level;
  interests : list str;
  group_type : group_kind;
  pace : pace_kind;
  accommodation : accommodation_kind
}.

(** Bounds of the two [number_input] widgets. *)
Definition days_min := 1%Z.
Definition days_max := 30%Z.
Definition people_min := 1%Z.
Definition people_max := 20%Z.

Definition in_widget_range (r : TripRequest) : Prop :=
  (days_min <= num_days r <= days_max)%Z /\
  (people_min <= num_people r <= people_max)%Z.

Inductive meal_kind := breakfast | lunch | dinner.

Definition meal_name (m : meal_kind) : str :=
  match m with
  | breakfast => lit "breakfast"
  | lunch => lit "lunch"
  | dinner => lit "dinner"
  end.

Record Activity := {
  a_time : str;
  a_activity : str;
  a_description : str;
  a_duration : str;
  a_cost : Z
}.

Record Meal := {
  m_meal : meal_kind;
  m_restaurant : str;
  m_cuisine : str;
  m_cost : Z
}.

Record DayPlan := {
  d_day : Z;
  d_title : str;
  d_activities : list Activity;
  d_meals : list Meal;
  d_estimated_cost : Z;
  d_travel_tips : str
}.

Record Itinerary := {
  i_destination : str;
  i_overview : str;
  i_daily_itineraries : list DayPlan;
  i_famous_attractions : list str;
  i_local_cuisine : list str;
  i_travel_tips : list str;
  i_packing_suggestions : list str;
  i_total_estimated_cost : Z
}.

Definition with_destination (dest : str) (it : Itinerary) : Itinerary :=
  {| i_destination := dest;
     i_overview := i_overview it;
     i_daily_itineraries := i_daily_itineraries it;
     i_famous_attractions := i_famous_attractions it;
     i_local_cuisine := i_local_cuisine it;
     i_travel_tips := i_travel_tips it;
     i_packing_suggestions := i_packing_suggestions it;
     i_total_estimated_cost := i_total_estimated_cost it |}.

Definition with_meals (ms : list Meal) (d : DayPlan) : DayPlan :=
  {| d_day := d_day d;
     d_title := d_title d;
     d_activities := d_activities d;
     d_meals := ms;
     d_estimated_cost := d_estimated_cost d;
     d_travel_tips := d_travel_tips d |}.

(** The dict of each record, with the keys and the key order of the
    structure the prompt asks for; [destination], which the prompt does not
    list and the script adds, comes last. *)
Definition activity_to_json (a : Activity) : json :=
  JObj [ (lit "time", JStr (a_time a));
         (lit "activity", JStr (a_activity a));
         (lit "description", JStr (a_description a));
         (lit "duration", JStr (a_duration a));
         (lit "cost", JNum (a_cost a)) ].

Definition meal_to_json (m : Meal) : json :=
  JObj [ (lit "meal", JStr (meal_name (m_meal m)));
         (lit "restaurant", JStr (m_restaurant m));
         (lit "cuisine", JStr (m_cuisine m));
         (lit "cost", JNum (m_cost m)) ].

Definition day_to_json (d : DayPlan) : json :=
  JObj [ (lit "day", JNum (d_day d));
         (lit "title", JStr (d_title d));
         (lit "activities", JArr (map activity_to_json (d_activities d)));
         (lit "meals", JArr (map meal_to_json (d_meals d)));
         (lit "estimated_cost", JNum (d_estimated_cost d));
         (lit "travel_tips", JStr (d_travel_tips d)) ].

Definition itinerary_fields (it : Itinerary) : dict :=
  [ (lit "overview", JStr (i_overview it));
    (lit "daily_itineraries", JArr (map day_to_json (i_daily_itineraries it)));
    (lit "famous_attractions", JArr (map JStr (i_famous_attractions it)));
    (lit "local_cuisine", JArr (map JStr (i_local_cuisine it)));
    (lit "travel_tips", JArr (map JStr (i_travel_tips it)));
    (lit "packing_suggestions", JArr (map JStr (i_packing_suggestions it)));
    (lit "total_estimated_cost", JNum (i_total_estimated_cost it));
    (lit "destination", JStr (i_destination it)) ].

Definition itinerary_to_json (it : Itinerary) : json :=
  JObj (itinerary_fields it).

(** [st.session_state]: the saved API key and the stored itinerary. *)
Record session := {
  api_key : option str;
  itinerary : option json
}.

Inductive status_state := Complete | Errored.
Inductive metric_kind := TotalCost | PerPerson | Duration | Activities.
Inductive list_section := Attractions | Cuisine | Tips | Packing.

(** What the model client answers to one call. *)
Inductive reply :=
| ReplyText (text : str)
| ReplyError (msg : str).

(** What a run of the script does that can be seen from outside: widgets
    drawn, messages shown, library calls.  Texts are given without their
    decoration (emoji, HTML, CSS classes); an interpolated value is given
    as the text the f-string makes of it. *)
Inductive event :=
| Configure (key : str)
| ConfigureFailed (msg : str)
| GenerateContent (req : TripRequest)
| StError (msg : str)
| AiError (e : exn)
| DebugInfo (snippet : str)
| StWarning (msg : str)
| StSuccess (msg : str)
| StatusOpen (label : str)
| StWrite (msg : str)
| Sleep
| StatusUpdate (label : str) (state : status_state)
| Balloons
| Heading (text : str)
| InfoBox (text : str)
| Columns (n : nat)
| Metric (kind : metric_kind) (value : str)
| DayHeading (day title : str)
| DayBudget (budget : str)
| ActivityItem (time activity description duration cost : str)
| MealColumn (idx : nat) (meal restaurant cuisine cost : str)
| Info (text : str)
| Numbered (sec : list_section) (i : nat) (text : str)
| DownloadJson (data : json) (filename : str)
| DownloadTxt (text : str) (filename : str)
| WelcomeScreen (configured : bool).

(** The process as the script sees it: the [GOOGLE_API_KEY] environment
    variable, the session state, and what has been shown so far. *)
Record world := {
  environ_key : option str;
  sess : session;
  out : list event
}.

End Model.
Import Model.

(* ================================================================== *)
(** ** Script monad: state, output and exceptions *)
(* ================================================================== *)

Module Script.

(** A statement transforms the world and ends normally or by raising; the
    world reached when an exception is raised is kept. *)
Definition M (A : Type) : Type := world -> world * res A.

Definition ret {A} (a : A) : M A := fun w => (w, Ok a).

Definition bind {A B} (m : M A) (k : A -> M B) : M B :=
  fun w => match m w with
           | (w', Ok a) => k a w'
           | (w', Raise e) => (w', Raise e)
           end.

Definition raise {A} (e : exn) : M A := fun w => (w, Raise e).

Definition lift {A} (r : res A) : M A := fun w => (w, r).

Definition emit (e : event) : M unit :=
  fun w => ({| environ_key := environ_key w; sess := sess w;
               out := out w ++ [e] |}, Ok tt).

Definition get_session : M session := fun w => (w, Ok (sess w)).

Definition put_session (s : session) : M unit :=
  fun w => ({| environ_key := environ_key w; sess := s; out := out w |}, Ok tt).

Definition get_environ : M (option str) := fun w => (w, Ok (environ_key w)).

Definition put_environ (k : str) : M unit :=
  fun w => ({| environ_key := Some k; sess := sess w; out := out w |}, Ok tt).

(** [for x in l: body] *)
Fixpoint for_each {A} (l : list A) (body : A -> M unit) : M unit :=
  match l with
  | [] => ret tt
  | x :: rest => bind (body x) (fun _ => for_each rest body)
  end.

(** [for i, x in enumerate(l, start): body] *)
Fixpoint for_enumerate {A} (start : nat) (l : list A)
         (body : nat -> A -> M unit) : M unit :=
  match l with
  | [] => ret tt
  | x :: rest => bind (body start x) (fun _ => for_enumerate (S start) rest body)
  end.

End Script.
Import Script.

Declare Scope script_scope.
Delimit Scope script_scope with script.
Notation "x <- m ;; k" := (bind m (fun x => k))
  (at level 61, m at next level, right associativity) : script_scope.
Notation "m ;; k" := (bind m (fun _ => k))
  (at level 61, right associativity) : script_scope.

(* ================================================================== *)
(** ** The script *)
(* ================================================================== *)

Module App.

Definition nl : str := ["010"%char].
Definition fence_json : str := lit "```json".
Definition fence : str := lit "```".

(** What the user did on the page before this run. *)
Record inputs := {
  form : TripRequest;
  api_key_input : str;
  save_clicked : bool;
  generate_clicked : bool;
  new_clicked : bool
}.

(** [text.strip()], then the content of the first fenced block if the
    text has a fence (lines 143-147). *)
Definition clean_response (raw : str) : res str :=
  let text := strip raw in
  if contains fence_json text then
    (a <- index (split fence_json text) 1 ;;
     b <- index (split fence a) 0 ;;
     Ok (strip b))%res
  else if contains fence text then
    (a <- index (split fence text) 1 ;;
     b <- index (split fence a) 0 ;;
     Ok (strip b))%res
  else Ok text.

(** The text export (lines 377-386). *)
Fixpoint text_activities (text : str) (acts : list json) : res str :=
  match acts with
  | [] => Ok text
  | act :: rest =>
      (t <- getitem act (lit "time") ;;
       a <- getitem act (lit "activity") ;;
       let text := text ++ lit "  " ++ py_str t ++ lit " - " ++ py_str a ++ nl in
       d <- getitem act (lit "description") ;;
       let text := text ++ lit "    " ++ py_str d ++ nl in
       text_activities text rest)%res
  end.

Fixpoint text_days (text : str) (days : list json) : res str :=
  match days with
  | [] => Ok text
  | day :: rest =>
      (n <- getitem day (lit "day") ;;
       t <- getitem day (lit "title") ;;
       let text := text ++ nl ++ lit "DAY " ++ py_str n ++ lit ": "
                        ++ py_str t ++ nl in
       c <- getitem day (lit "estimated_cost") ;;
       let text := text ++ lit "Budget: $" ++ py_str c ++ nl ++ nl in
       acts_v <- getitem day (lit "activities") ;;
       acts <- py_iter acts_v ;;
       text <- text_activities text acts ;;
       text_days (text ++ nl) rest)%res
  end.

Definition to_text (data : json) : res str :=
  (d <- getitem data (lit "destination") ;;
   let text := lit "AI-GENERATED ITINERARY: " ++ py_str d ++ nl
                   ++ repeat_char "="%char 60 ++ nl ++ nl in
   o <- getitem data (lit "overview") ;;
   let text := text ++ lit "OVERVIEW:" ++ nl ++ py_str o ++ nl ++ nl in
   c <- getitem data (lit "total_estimated_cost") ;;
   let text := text ++ lit "TOTAL COST: $" ++ py_str c ++ nl ++ nl in
   days_v <- getitem data (lit "daily_itineraries") ;;
   days <- py_iter days_v ;;
   text_days text days)%res.

(** [f"ai_itinerary_{destination.replace(' ', '_')}<ext>"] *)
Definition export_filename (dest ext : str) : str :=
  lit "ai_itinerary_" ++ replace_char " "%char "_"%char dest ++ ext.

(** Line 72: [os.getenv("GOOGLE_API_KEY") or
    st.session_state.get("api_key", "")]. *)
Definition resolve_key (env : option str) (ss : session) : str :=
  match env with
  | Some (c :: k) => c :: k
  | _ => match api_key ss with
         | Some k => k
         | None => []
         end
  end.

Section Program.

(** The libraries the script calls.
    - [json_loads]: [json.loads]; [None] stands for [JSONDecodeError].
    - [client]: [model.generate_content(prompt).text], the prompt being
      the fixed template filled with the request's eight values.
    - [configure]: [genai.configure]; [Some msg] stands for an exception. *)
Variable json_loads : str -> option json.
Variable client : TripRequest -> reply.
Variable configure : str -> option str.

Local Open Scope script_scope.

(** Lines 70-81. *)
Definition setup_gemini_api : M bool :=
  env <- get_environ ;;
  ss <- get_session ;;
  match resolve_key env ss with
  | [] => ret false
  | c :: k =>
      match configure (c :: k) with
      | None => emit (Configure (c :: k)) ;; ret true
      | Some msg => emit (ConfigureFailed msg) ;; ret false
      end
  end.

(** Lines 138-160: one model call, then clean, parse, set [destination];
    every exception ends in an error message and [None]. *)
Definition generate_itinerary_with_gemini (req : TripRequest)
  : M (option json) :=
  emit (GenerateContent req) ;;
  match client req with
  | ReplyError msg => emit (AiError (ClientError msg)) ;; ret None
  | ReplyText raw =>
      match clean_response raw with
      | Raise e => emit (AiError e) ;; ret None
      | Ok text =>
          match json_loads text with
          | None =>
              emit (StError (lit "Failed to parse AI response. Please try again.")) ;;
              emit (DebugInfo (slice_to 500 text)) ;;
              ret None
          | Some parsed =>
              match setitem parsed (lit "destination")
                            (JStr (destination req)) with
              | Raise e => emit (AiError e) ;; ret None
              | Ok it => ret (Some it)
              end
          end
      end
  end.

(** Lines 255-282, the body of [if generate_btn:]. *)
Definition on_generate (req : TripRequest) : M unit :=
  match destination req with
  | [] => emit (StError (lit "Please enter a destination!"))
  | _ :: _ =>
      match interests req with
      | [] => emit (StError (lit "Please select at least one interest!"))
      | _ :: _ =>
          emit (StatusOpen (lit "AI is analyzing your preferences...")) ;;
          emit (StWrite (lit "Understanding your travel style...")) ;;
          emit Sleep ;;
          emit (StWrite (lit "Researching destination information...")) ;;
          emit Sleep ;;
          emit (StWrite (lit "AI is processing thousands of possibilities...")) ;;
          emit Sleep ;;
          emit (StWrite (lit "Optimizing itinerary based on your budget...")) ;;
          emit Sleep ;;
          emit (StWrite (lit "Generating personalized recommendations...")) ;;
          it <- generate_itinerary_with_gemini req ;;
          match it with
          | Some v =>
              if truthy v then
                ss <- get_session ;;
                put_session {| api_key := api_key ss; itinerary := Some v |} ;;
                emit (StatusUpdate (lit "AI has created your perfect itinerary!")
                                   Complete) ;;
                emit Balloons
              else
                emit (StatusUpdate (lit "Failed to generate itinerary") Errored)
          | None =>
              emit (StatusUpdate (lit "Failed to generate itinerary") Errored)
          end
      end
  end.

End Program.

(** [st.columns(n)]: Streamlit refuses a column count that is not
    positive. *)
Definition st_columns (n : nat) : M unit :=
  match n with
  | O => raise StreamlitAPIException
  | S _ => emit (Columns n)
  end.

Section Display.
Local Open Scope script_scope.

(** Lines 317-324. *)
Definition show_activity (act : json) : M unit :=
  t <- lift (getitem act (lit "time")) ;;
  a <- lift (getitem act (lit "activity")) ;;
  d <- lift (getitem act (lit "description")) ;;
  u <- lift (getitem act (lit "duration")) ;;
  c <- lift (getitem act (lit "cost")) ;;
  emit (ActivityItem (py_str t) (py_str a) (py_str d) (py_str u) (py_str c)).

(** Lines 329-334. *)
Definition show_meal (idx : nat) (meal : json) : M unit :=
  m <- lift (getitem meal (lit "meal")) ;;
  m' <- lift (title m) ;;
  r <- lift (getitem meal (lit "restaurant")) ;;
  c <- lift (getitem meal (lit "cuisine")) ;;
  p <- lift (getitem meal (lit "cost")) ;;
  emit (MealColumn idx m' (py_str r) (py_str c) (py_str p)).

(** Lines 311-337, the body of the loop over the days. *)
Definition show_day (day_data : json) : M unit :=
  n <- lift (getitem day_data (lit "day")) ;;
  t <- lift (getitem day_data (lit "title")) ;;
  emit (DayHeading (py_str n) (py_str t)) ;;
  c <- lift (getitem day_data (lit "estimated_cost")) ;;
  b <- lift (fmt_f0 false c) ;;
  emit (DayBudget b) ;;
  acts_v <- lift (getitem day_data (lit "activities")) ;;
  acts <- lift (py_iter acts_v) ;;
  for_each acts show_activity ;;
  meals_v <- lift (getitem day_data (lit "meals")) ;;
  count <- lift (py_len meals_v) ;;
  st_columns count ;;
  meals_v' <- lift (getitem day_data (lit "meals")) ;;
  meals <- lift (py_iter meals_v') ;;
  for_enumerate 0 meals show_meal ;;
  tips <- lift (getitem day_data (lit "travel_tips")) ;;
  emit (Info (py_str tips)).

(** Lines 346-347 and the three loops like it. *)
Definition show_list (data : json) (sec : list_section) (key : str) : M unit :=
  v <- lift (getitem data key) ;;
  items <- lift (py_iter v) ;;
  for_enumerate 1 items (fun i x => emit (Numbered sec i (py_str x))).

(** Lines 286-397, the body of [if 'itinerary' in st.session_state:].
    [req] holds the current values of the sidebar inputs. *)
Definition show_itinerary (data : json) (req : TripRequest)
           (new_clicked : bool) : M unit :=
  d <- lift (getitem data (lit "destination")) ;;
  emit (Heading (py_str d)) ;;
  o <- lift (getitem data (lit "overview")) ;;
  emit (InfoBox (py_str o)) ;;
  st_columns 4 ;;
  total <- lift (getitem data (lit "total_estimated_cost")) ;;
  t <- lift (fmt_f0 true total) ;;
  emit (Metric TotalCost t) ;;
  q <- lift (truediv total (num_people req)) ;;
  emit (Metric PerPerson (fmt_money q)) ;;
  emit (Metric Duration (str_of_Z (num_days req) ++ lit " days")) ;;
  fa <- lift (get_default data (lit "famous_attractions") (JArr [])) ;;
  k <- lift (py_len fa) ;;
  emit (Metric Activities (str_of_Z (Z.of_nat k))) ;;
  days_v <- lift (getitem data (lit "daily_itineraries")) ;;
  days <- lift (py_iter days_v) ;;
  for_each days show_day ;;
  st_columns 2 ;;
  show_list data Attractions (lit "famous_attractions") ;;
  show_list data Cuisine (lit "local_cuisine") ;;
  show_list data Tips (lit "travel_tips") ;;
  show_list data Packing (lit "packing_suggestions") ;;
  st_columns 3 ;;
  emit (DownloadJson data (export_filename (destination req) (lit ".json"))) ;;
  text <- lift (to_text data) ;;
  emit (DownloadTxt text (export_filename (destination req) (lit ".txt"))) ;;
  if new_clicked then
    ss <- get_session ;;
    put_session {| api_key := api_key ss; itinerary := None |} ;;
    raise RerunException
  else ret tt.

End Display.

Section Run.
Variable json_loads : str -> option json.
Variable client : TripRequest -> reply.
Variable configure : str -> option str.

Local Open Scope script_scope.

(** Lines 172-195: the API key expander and its save button. *)
Definition api_key_setup (inp : inputs) : M unit :=
  _ <- setup_gemini_api configure ;;
  if save_clicked inp then
    ss <- get_session ;;
    put_session {| api_key := Some (api_key_input inp);
                   itinerary := itinerary ss |} ;;
    put_environ (api_key_input inp) ;;
    ok <- setup_gemini_api configure ;;
    if ok then
      emit (StSuccess (lit "API Key configured successfully!")) ;;
      raise RerunException
    else ret tt
  else ret tt.

(** Lines 285-419: the stored itinerary, or the welcome screen. *)
Definition display (inp : inputs) (api_configured : bool) : M unit :=
  ss <- get_session ;;
  match itinerary ss with
  | Some data => show_itinerary data (form inp) (new_clicked inp)
  | None => emit (WelcomeScreen api_configured)
  end.

(** Lines 422-429: the call passes [unsafe_html], which [st.markdown]
    does not accept. *)
Definition footer : M unit := raise TypeError.

(** Lines 246-429: what a run does once [api_configured] is known.  The
    generate button is drawn disabled when the API is not configured; a
    disabled button is never reported as clicked. *)
Definition after_setup (inp : inputs) (api_configured : bool) : M unit :=
  let generate_btn := generate_clicked inp && api_configured in
  (if api_configured then ret tt
   else emit (StWarning (lit "Please configure API key above"))) ;;
  (if generate_btn then on_generate json_loads client (form inp)
   else ret tt) ;;
  display inp api_configured ;;
  footer.

(** One run of the script, top to bottom. *)
Definition script_run (inp : inputs) : M unit :=
  api_key_setup inp ;;
  api_configured <- setup_gemini_api configure ;;
  after_setup inp api_configured.

End Run.

End App.
Import App.

(* ================================================================== *)
(** ** Properties of runs, and the specification's validator *)
(* ================================================================== *)

Module Props.

(** The world after the events [evs] have been shown. *)
Definition add_out (evs : list event) (w : world) : world :=
  {| environ_key := environ_key w; sess := sess w; out := out w ++ evs |}.

(** [m] only appends to the output, and every event it appends
    satisfies [P]. *)
Definition emits_only {A} (P : event -> Prop) (m : M A) : Prop :=
  forall w, exists evs,
    out (fst (m w)) = out w ++ evs /\ Forall P evs.

(** The same, for the run of [m] from the world [w]. *)
Definition emits_at {A} (P : event -> Prop) (m : M A) (w : world) : Prop :=
  exists evs, out (fst (m w)) = out w ++ evs /\ Forall P evs.

(** [setup_gemini_api] would report the API configured. *)
Definition would_configure (configure : str -> option str) (w : world)
  : bool :=
  match resolve_key (environ_key w) (sess w) with
  | [] => false
  | c :: k => match configure (c :: k) with
              | None => true
              | Some _ => false
              end
  end.

(** Neither the environment nor the session has a non-empty key. *)
Definition no_credential (w : world) : Prop :=
  (environ_key w = None \/ environ_key w = Some []) /\
  (api_key (sess w) = None \/ api_key (sess w) = Some []).

Definition is_configure_nonempty (e : event) : Prop :=
  match e with
  | Configure (_ :: _) => True
  | _ => False
  end.

(** [m] raises no exception outside [E]. *)
Definition raises_only {A} (E : exn -> Prop) (m : M A) : Prop :=
  forall w, match snd (m w) with
            | Raise e => E e
            | Ok _ => True
            end.

Definition res_raises_only {A} (E : exn -> Prop) (r : res A) : Prop :=
  match r with
  | Raise e => E e
  | Ok _ => True
  end.

Definition is_model_call (e : event) : Prop :=
  match e with
  | GenerateContent _ => True
  | _ => False
  end.

Definition not_model_call (e : event) : Prop := ~ is_model_call e.

Definition any_event (e : event) : Prop := True.

(** The values shown by the per-person metric, in order. *)
Definition per_person_values (evs : list event) : list str :=
  flat_map (fun e => match e with
                     | Metric PerPerson v => [v]
                     | _ => []
                     end) evs.

Definition not_zero_division (e : exn) : Prop := e <> ZeroDivisionError.

(** The texts [xs] occur in [t] one after the other, without overlap. *)
Inductive occurs_in_order : list str -> str -> Prop :=
| occurs_nil : forall t, occurs_in_order [] t
| occurs_cons : forall x xs pre t,
    occurs_in_order xs t -> occurs_in_order (x :: xs) (pre ++ x ++ t).

(** Day titles and activity names of an itinerary, day by day. *)
Definition titles_and_activities (it : Itinerary) : list str :=
  flat_map (fun d => d_title d :: map a_activity (d_activities d))
           (i_daily_itineraries it).

Definition without_meals (it : Itinerary) : Itinerary :=
  {| i_destination := i_destination it;
     i_overview := i_overview it;
     i_daily_itineraries := map (with_meals []) (i_daily_itineraries it);
     i_famous_attractions := i_famous_attractions it;
     i_local_cuisine := i_local_cuisine it;
     i_travel_tips := i_travel_tips it;
     i_packing_suggestions := i_packing_suggestions it;
     i_total_estimated_cost := i_total_estimated_cost it |}.

(** The itineraries agree on everything but the meals of their days. *)
Definition same_but_meals (a b : Itinerary) : Prop :=
  without_meals a = without_meals b.

(** A generation attempt ends in an error: the client fails, the cleaned
    text does not parse, or the parsed value cannot take an item. *)
Definition attempt_fails (json_loads : str -> option json)
           (client : TripRequest -> reply) (req : TripRequest) : bool :=
  match client req with
  | ReplyError _ => true
  | ReplyText raw =>
      match clean_response raw with
      | Raise _ => true
      | Ok text =>
          match json_loads text with
          | None => true
          | Some (JObj _) => false
          | Some _ => true
          end
      end
  end.

(** The text wrapped in a [json] code fence. *)
Definition fenced (content : str) : str :=
  fence_json ++ nl ++ content ++ nl ++ fence.

End Props.
Import Props.

Module Spec.

(** The validation step as the specification words it (section 4.3,
    step 3): each required top-level key is present and of the expected
    kind; a number may arrive as a numeric string.  [destination] is not
    asked of the model, it is set afterwards. *)
Inductive kind := KObject | KArray | KString | KNumber.

Definition required_fields : list (str * kind) :=
  [ (lit "overview", KString);
    (lit "daily_itineraries", KArray);
    (lit "famous_attractions", KArray);
    (lit "local_cuisine", KArray);
    (lit "travel_tips", KArray);
    (lit "packing_suggestions", KArray);
    (lit "total_estimated_cost", KNumber) ].

Definition numeric_string (s : str) : option Z :=
  match parse_int s with
  | Some (JNum n, []) => Some n
  | _ => None
  end.

Definition has_kind (k : kind) (v : json) : bool :=
  match k, v with
  | KObject, JObj _ => true
  | KArray, JArr _ => true
  | KString, JStr _ => true
  | KNumber, JNum _ => true
  | KNumber, JStr s => match numeric_string s with
                       | Some _ => true
                       | None => false
                       end
  | _, _ => false
  end.

Definition field_ok (d : dict) (f : str * kind) : bool :=
  match dict_get (fst f) d with
  | Some v => has_kind (snd f) v
  | None => false
  end.

(** The field a [SchemaMismatchError] names, if validation fails. *)
Definition schema_mismatch (d : dict) : option str :=
  match filter (fun f => negb (field_ok d f)) required_fields with
  | f :: _ => Some (fst f)
  | [] => None
  end.

(** A numeric field after coercion. *)
Definition coerce_number (v : json) : json :=
  match v with
  | JStr s => match numeric_string s with
              | Some n => JNum n
              | None => v
              end
  | _ => v
  end.

End Spec.

(* ================================================================== *)
(** ** Sample data for closed examples *)
(* ================================================================== *)

Module Samples.

Definition lisbon_request : TripRequest :=
  {| destination := lit "Lisbon"; num_days := 3; num_people := 2;
     budget := Medium; interests := [lit "Food"; lit "Culture"];
     group_type := Couple; pace := Moderate; accommodation := MidRange |}.

Definition no_destination_request : TripRequest :=
  {| destination := []; num_days := 3; num_people := 2;
     budget := Medium; interests := [lit "Food"; lit "Culture"];
     group_type := Couple; pace := Moderate; accommodation := MidRange |}.

Definition with_people (n : Z) (r : TripRequest) : TripRequest :=
  {| destination := destination r; num_days := num_days r; num_people := n;
     budget := budget r; interests := interests r;
     group_type := group_type r; pace := pace r;
     accommodation := accommodation r |}.

Definition tram_ride : Activity :=
  {| a_time := lit "9:00 AM"; a_activity := lit "Tram 28";
     a_description := lit "Ride through Alfama"; a_duration := lit "2 hours";
     a_cost := 50 |}.

Definition castle_visit : Activity :=
  {| a_time := lit "2:00 PM"; a_activity := lit "Castelo de S. Jorge";
     a_description := lit "Views over the city"; a_duration := lit "3 hours";
     a_cost := 15 |}.

Definition tasca_lunch : Meal :=
  {| m_meal := lunch; m_restaurant := lit "Tasca do Chico";
     m_cuisine := lit "Portuguese"; m_cost := 20 |}.

Definition old_town_day : DayPlan :=
  {| d_day := 1; d_title := lit "Old Town";
     d_activities := [tram_ride; castle_visit]; d_meals := [tasca_lunch];
     d_estimated_cost := 200; d_travel_tips := lit "Wear good shoes" |}.

Definition belem_day : DayPlan :=
  {| d_day := 2; d_title := lit "Belem"; d_activities := [tram_ride];
     d_meals := []; d_estimated_cost := 150;
     d_travel_tips := lit "Go early" |}.

Definition lisbon_itinerary : Itinerary :=
  {| i_destination := lit "Lisboa"; i_overview := lit "City of seven hills.";
     i_daily_itineraries := [old_town_day];
     i_famous_attractions := [lit "Torre de Belem"; lit "Alfama"];
     i_local_cuisine := [lit "Bacalhau"];
     i_travel_tips := [lit "Carry cash"];
     i_packing_suggestions := [lit "Sunscreen"];
     i_total_estimated_cost := 1500 |}.

(** The same plan, its overview quoting a code fence. *)
Definition fence_in_overview : Itinerary :=
  {| i_destination := lit "Lisboa"; i_overview := lit "a```b";
     i_daily_itineraries := [old_town_day];
     i_famous_attractions := [lit "Torre de Belem"; lit "Alfama"];
     i_local_cuisine := [lit "Bacalhau"];
     i_travel_tips := [lit "Carry cash"];
     i_packing_suggestions := [lit "Sunscreen"];
     i_total_estimated_cost := 1500 |}.

(** A plan with a day that has no meals. *)
Definition two_day_itinerary : Itinerary :=
  {| i_destination := lit "Lisboa"; i_overview := lit "City of seven hills.";
     i_daily_itineraries := [old_town_day; belem_day];
     i_famous_attractions := [lit "Torre de Belem"; lit "Alfama"];
     i_local_cuisine := [lit "Bacalhau"];
     i_travel_tips := [lit "Carry cash"];
     i_packing_suggestions := [lit "Sunscreen"];
     i_total_estimated_cost := 1500 |}.

Definition fresh_session : session :=
  {| api_key := Some (lit "key"); itinerary := None |}.

Definition fresh_world : world :=
  {| environ_key := None; sess := fresh_session; out := [] |}.

Definition world_with (it : Itinerary) : world :=
  {| environ_key := None;
     sess := {| api_key := Some (lit "key");
                itinerary := Some (itinerary_to_json it) |};
     out := [] |}.

Definition no_key_world : world :=
  {| environ_key := Some [];
     sess := {| api_key := None; itinerary := None |};
     out := [] |}.

(** The world a later run starts from: same process, nothing shown yet. *)
Definition next_run (w : world) : world :=
  {| environ_key := environ_key w; sess := sess w; out := [] |}.

Definition reply_with (raw : str) : TripRequest -> reply :=
  fun _ => ReplyText raw.

Definition reply_error : TripRequest -> reply :=
  fun _ => ReplyError (lit "timeout").

Definition configure_ok : str -> option str := fun _ => None.

Definition click_generate (r : TripRequest) : inputs :=
  {| form := r; api_key_input := []; save_clicked := false;
     generate_clicked := true; new_clicked := false |}.

Definition no_click (r : TripRequest) : inputs :=
  {| form := r; api_key_input := []; save_clicked := false;
     generate_clicked := false; new_clicked := false |}.

(** A reply that lacks most fields and gives the total as a string. *)
Definition partial_reply : str :=
  jlit "{'overview': 'x', 'total_estimated_cost': '1500'}".

End Samples.

(* ================================================================== *)
(** ** The prompt *)
(* ================================================================== *)

Module Prompt.

(** The texts of the choice widgets (lines 215-243), which are the values
    the f-string interpolates. *)
Definition budget_text (b : budget_level) : str :=
  match b with
  | Low => lit "Low"
  | Medium => lit "Medium"
  | High => lit "High"
  end.

Definition group_text (g : group_kind) : str :=
  match g with
  | Solo => lit "Solo"
  | Couple => lit "Couple"
  | Family => lit "Family"
  | Friends => lit "Friends"
  end.

Definition pace_text (p : pace_kind) : str :=
  match p with
  | Relaxed => lit "Relaxed"
  | Moderate => lit "Moderate"
  | Packed => lit "Packed"
  end.

Definition accommodation_text (a : accommodation_kind) : str :=
  match a with
  | Budget => lit "Budget"
  | MidRange => lit "Mid-range"
  | Luxury => lit "Luxury"
  end.

(** Lines 97-129, the structure asked of the model, line by line. *)
Definition prompt_schema : list str :=
  [ jlit "{";
    jlit "    'overview': 'Brief 3-sentence overview of the destination and what makes it special',";
    jlit "    'daily_itineraries': [";
    jlit "        {";
    jlit "            'day': 1,";
    jlit "            'title': 'Descriptive day title',";
    jlit "            'activities': [";
    jlit "                {";
    jlit "                    'time': '9:00 AM',";
    jlit "                    'activity': 'Activity name',";
    jlit "                    'description': 'Detailed description',";
    jlit "                    'duration': '2 hours',";
    jlit "                    'cost': 50";
    jlit "                }";
    jlit "            ],";
    jlit "            'meals': [";
    jlit "                {";
    jlit "                    'meal': 'breakfast',";
    jlit "                    'restaurant': 'Restaurant name',";
    jlit "                    'cuisine': 'Cuisine type',";
    jlit "                    'cost': 20";
    jlit "                }";
    jlit "            ],";
    jlit "            'estimated_cost': 200,";
    jlit "            'travel_tips': 'Specific tips for this day'";
    jlit "        }";
    jlit "    ],";
    jlit "    'famous_attractions': ['attraction1', 'attraction2', '...'],";
    jlit "    'local_cuisine': ['dish1', 'dish2', '...'],";
    jlit "    'travel_tips': ['tip1', 'tip2', '...'],";
    jlit "    'packing_suggestions': ['item1', 'item2', '...'],";
    jlit "    'total_estimated_cost': 1500";
    jlit "}" ].

(** Lines 87-136: the prompt, its lines joined by newlines. *)
Definition build_prompt (req : TripRequest) : str :=
  join nl
    ([ lit "You are an expert travel planner. Create a detailed "
         ++ str_of_Z (num_days req) ++ lit "-day travel itinerary for "
         ++ destination req ++ lit ".";
       [];
       lit "Trip Details:";
       lit "- Travelers: " ++ str_of_Z (num_people req) ++ lit " "
         ++ group_text (group_type req);
       lit "- Budget: " ++ budget_text (budget req);
       lit "- Interests: " ++ join (lit ", ") (interests req);
       lit "- Pace: " ++ pace_text (pace req);
       lit "- Accommodation: " ++ accommodation_text (accommodation req);
       [];
       lit "Provide a comprehensive itinerary in JSON format with this EXACT structure:" ]
     ++ prompt_schema ++
     [ [];
       lit "Important:";
       lit "- Include 3-4 activities per day for " ++ pace_text (pace req)
         ++ lit " pace";
       lit "- All costs in USD";
       lit "- Make it realistic and specific to " ++ destination req;
       lit "- Consider " ++ budget_text (budget req) ++ lit " budget level";
       lit "- Return ONLY valid JSON, no markdown formatting" ]).

End Prompt.
Import Prompt.

(* ================================================================== *)
(** ** Further properties of runs *)
(* ================================================================== *)

Module MoreProps.

(** [m] leaves the environment and the session as they are. *)
Definition keeps_state {A} (m : M A) : Prop :=
  forall w, environ_key (fst (m w)) = environ_key w
            /\ sess (fst (m w)) = sess w.

(** [m] leaves the stored itinerary as it is. *)
Definition keeps_itinerary {A} (m : M A) : Prop :=
  forall w, itinerary (sess (fst (m w))) = itinerary (sess w).

(** The number of model calls among the events. *)
Definition model_calls (evs : list event) : nat :=
  List.length (filter (fun e => match e with
                                | GenerateContent _ => true
                                | _ => false
                                end) evs).

(** [m] only appends to the output, at most [n] model calls. *)
Definition calls_at_most {A} (n : nat) (m : M A) : Prop :=
  forall w, exists evs,
    out (fst (m w)) = out w ++ evs /\ model_calls evs <= n.

(** The debug snippets among the events. *)
Definition debug_snippets (evs : list event) : list str :=
  flat_map (fun e => match e with
                     | DebugInfo s => [s]
                     | _ => []
                     end) evs.

(** Lines 261-270: what a valid submission shows before the model is
    called. *)
Definition progress_events : list event :=
  [ StatusOpen (lit "AI is analyzing your preferences...");
    StWrite (lit "Understanding your travel style...");
    Sleep;
    StWrite (lit "Researching destination information...");
    Sleep;
    StWrite (lit "AI is processing thousands of possibilities...");
    Sleep;
    StWrite (lit "Optimizing itinerary based on your budget...");
    Sleep;
    StWrite (lit "Generating personalized recommendations...") ].

(** Lines 277-282: what the handler does with the result of the call. *)
Definition store_result (it : option json) : M unit :=
  match it with
  | Some v =>
      if truthy v then
        bind get_session (fun ss =>
        bind (put_session {| api_key := api_key ss; itinerary := Some v |})
             (fun _ =>
        bind (emit (StatusUpdate (lit "AI has created your perfect itinerary!")
                                 Complete))
             (fun _ => emit Balloons)))
      else emit (StatusUpdate (lit "Failed to generate itinerary") Errored)
  | None => emit (StatusUpdate (lit "Failed to generate itinerary") Errored)
  end.

(** The text has no backtick. *)
Definition no_backtick (s : str) : bool :=
  negb (existsb (Ascii.eqb "`"%char) s).

(** Every day of the itinerary has a meal. *)
Definition every_day_has_meals (it : Itinerary) : Prop :=
  Forall (fun d => d_meals d <> []) (i_daily_itineraries it).

(** The keys the display reads from the stored object. *)
Definition displayed_keys : list str :=
  [ lit "destination"; lit "overview"; lit "total_estimated_cost";
    lit "daily_itineraries"; lit "famous_attractions"; lit "local_cuisine";
    lit "travel_tips"; lit "packing_suggestions" ].

End MoreProps.
Import MoreProps.

(* ================================================================== *)
(** ** Scope of the statements on amounts, and the events of a failure *)
(* ================================================================== *)

Module Scope.

(** Integers for which the [float] arithmetic of lines 297 and 299 does
    not show in the text drawn: below 2^53 a total converts to a [float]
    exactly, and below 2^48 the nearest [float] of its quotient by 1..20
    rounds to the same integer as the quotient itself (half of the gap
    between neighbouring floats is then at most 1/64, less than the
    distance 1/40 that separates such a quotient from a half). *)
Definition exact_amount (z : Z) : Prop := (Z.abs z < 2 ^ 48)%Z.

(** Integers that convert to a [float] without [OverflowError]. *)
Definition in_float_range (z : Z) : Prop := (Z.abs z < 2 ^ 1023)%Z.

(** Every number of an itinerary. *)
Definition itinerary_numbers (it : Itinerary) : list Z :=
  i_total_estimated_cost it ::
  flat_map (fun d => d_day d :: d_estimated_cost d ::
                     map a_cost (d_activities d) ++ map m_cost (d_meals d))
           (i_daily_itineraries it).

Definition numbers_in_float_range (it : Itinerary) : Prop :=
  Forall in_float_range (itinerary_numbers it).

(** Lines 154-160: what [generate_itinerary_with_gemini] shows after the
    call when the attempt ends in an error (nothing when it does not). *)
Definition failure_events (json_loads : str -> option json)
           (client : TripRequest -> reply) (req : TripRequest) : list event :=
  match client req with
  | ReplyError msg => [AiError (ClientError msg)]
  | ReplyText raw =>
      match clean_response raw with
      | Raise e => [AiError e]
      | Ok text =>
          match json_loads text with
          | None =>
              [StError (lit "Failed to parse AI response. Please try again.");
               DebugInfo (slice_to 500 text)]
          | Some parsed =>
              match setitem parsed (lit "destination")
                            (JStr (destination req)) with
              | Raise e => [AiError e]
              | Ok _ => []
              end
          end
      end
  end.

(** Everything a failed attempt of a valid submission shows. *)
Definition failed_attempt_events (json_loads : str -> option json)
           (client : TripRequest -> reply) (req : TripRequest) : list event :=
  progress_events ++
  GenerateContent req :: failure_events json_loads client req ++
  [StatusUpdate (lit "Failed to generate itinerary") Errored].

End Scope.
Import Scope.

Example py_repr_example :
  py_repr (JObj [(lit "a", JArr [JNum 1; JStr (lit "it's")]); (lit "b", JNull)])
  = lit "{'a': [1, " ++ jlit "'it" ++ lit "'s" ++ jlit "'], " ++ lit "'b': None}".
Proof. reflexivity. Qed.
Example fmt_money_example :
  fmt_money (inject_Z 1500 / inject_Z 4)%Q = lit "375" /\
  fmt_money (inject_Z 1234567 / inject_Z 2)%Q = lit "617,284" /\
  fmt_money (inject_Z 5 / inject_Z 2)%Q = lit "2" /\
  fmt_money (inject_Z (-1) / inject_Z 4)%Q = lit "-0" /\
  with_commas 1500 = lit "1,500" /\ with_commas (-100) = lit "-100"
  /\ with_commas 100000 = lit "100,000".
Proof. repeat split; reflexivity. Qed.
Example title_example : title (JStr (lit "breakfast at tiffany's")) = Ok (lit "Breakfast At Tiffany'S").
Proof. reflexivity. Qed.
Example dumps_example :
  json_dumps (JObj [(lit "overview", JStr (jlit "a 'b' c")); (lit "n", JArr [JNum 1; JNum (-2); JNull])])
  = jlit "{'overview': 'a \'b\' c', 'n': [1, -2, null]}".
Proof. reflexivity. Qed.
Example loads_example :
  json_loads_ref (jlit " {'a': [1, {'b': 'x\ny'}, true], 'c': {}, 'a': -5 } ")
  = Some (JObj [(lit "a", JNum (-5)); (lit "c", JObj [])]).
Proof. vm_compute. reflexivity. Qed.
Example loads_bad : json_loads_ref (jlit "{'a': [1, 2") = None /\ json_loads_ref (jlit "b', 3}") = None
   /\ json_loads_ref (lit "{} x") = None /\ json_loads_ref (lit "[]") = Some (JArr [])
   /\ json_loads_ref (lit "1.5") = None /\ json_loads_ref [] = None.
Proof. vm_compute. repeat split; reflexivity. Qed.

(* ================================================================== *)
(** ** Facts about the string primitives *)
(* ================================================================== *)

Module StrFacts.

Lemma str_eqb_refl (a : str) : str_eqb a a = true.
Proof.
  induction a as [|c a IH]; simpl; [reflexivity|].
  now rewrite Ascii.eqb_refl.
Qed.

Lemma str_eqb_eq (a b : str) : str_eqb a b = true <-> a = b.
Proof.
  split.
  - revert b. induction a as [|x a IH]; intros [|y b] H; simpl in H;
      try discriminate; [reflexivity|].
    apply andb_true_iff in H as [Hxy Hab].
    apply Ascii.eqb_eq in Hxy. f_equal; auto.
  - intros ->. apply str_eqb_refl.
Qed.

Lemma starts_with_app (p s : str) : starts_with p (p ++ s) = true.
Proof.
  induction p as [|c p IH]; simpl; [reflexivity|].
  now rewrite Ascii.eqb_refl.
Qed.

Lemma starts_with_app_mono (p x y : str) :
  starts_with p x = true -> starts_with p (x ++ y) = true.
Proof.
  revert x. induction p as [|c p IH]; intros [|d x] H; simpl in *;
    try reflexivity; try discriminate.
  apply andb_true_iff in H as [H1 H2]. rewrite H1. simpl. auto.
Qed.

Lemma starts_with_long (p x y : str) :
  List.length p <= List.length x ->
  starts_with p (x ++ y) = starts_with p x.
Proof.
  revert x. induction p as [|c p IH]; intros [|d x] H; simpl in *;
    try reflexivity; try lia.
  rewrite IH by lia. reflexivity.
Qed.

Lemma starts_with_prefix (p q s : str) :
  starts_with (p ++ q) s = true -> starts_with p s = true.
Proof.
  revert s. induction p as [|c p IH]; intros [|d s] H; simpl in *;
    try reflexivity; try discriminate.
  apply andb_true_iff in H as [H1 H2]. rewrite H1. simpl. eauto.
Qed.

(** A character that the pattern does not have stops every match. *)
Lemma starts_with_stop (ch : ascii) (p x y : str) :
  existsb (Ascii.eqb ch) p = false ->
  starts_with p (x ++ ch :: y) = starts_with p x.
Proof.
  revert x. induction p as [|c p IH]; intros x H; [reflexivity|].
  simpl in H. apply orb_false_iff in H as [Hc Hp].
  destruct x as [|d x]; simpl.
  - rewrite Ascii.eqb_sym, Hc. reflexivity.
  - rewrite IH by assumption. reflexivity.
Qed.

Lemma contains_nil_r (p : str) : p <> [] -> contains p [] = false.
Proof. destruct p; [congruence|reflexivity]. Qed.

Lemma contains_prefix (p q s : str) :
  contains (p ++ q) s = true -> contains p s = true.
Proof.
  induction s as [|c s IH]; simpl; intros H.
  - rewrite orb_false_r in *. eapply starts_with_prefix; eauto.
  - apply orb_true_iff in H as [H|H].
    + erewrite starts_with_prefix by eauto. reflexivity.
    + rewrite IH by assumption. apply orb_true_r.
Qed.

Lemma contains_app_r (p a x : str) :
  contains p x = true -> contains p (a ++ x) = true.
Proof.
  intros H. induction a as [|c a IH]; simpl; [assumption|].
  rewrite IH. apply orb_true_r.
Qed.

Lemma contains_app_l (p x b : str) :
  contains p x = true -> contains p (x ++ b) = true.
Proof.
  induction x as [|c x IH]; intros H.
  - simpl in H. rewrite orb_false_r in H.
    destruct p; [|discriminate]. destruct b; reflexivity.
  - simpl in H. apply orb_true_iff in H as [H|H].
    + change ((c :: x) ++ b) with (c :: (x ++ b)).
      cbn [contains].
      change (c :: x ++ b) with ((c :: x) ++ b).
      rewrite starts_with_app_mono by assumption. reflexivity.
    + change ((c :: x) ++ b) with (c :: (x ++ b)). cbn [contains].
      rewrite IH by assumption. apply orb_true_r.
Qed.

Lemma contains_infix (p a x b : str) :
  contains p (a ++ x ++ b) = false -> contains p x = false.
Proof.
  intros H. destruct (contains p x) eqn:E; [|reflexivity].
  rewrite contains_app_r in H; [discriminate|].
  now apply contains_app_l.
Qed.

(** Across a character that the pattern does not have, a match lies on
    one side. *)
Lemma contains_stop (ch : ascii) (p x y : str) :
  existsb (Ascii.eqb ch) p = false ->
  contains p (x ++ ch :: y) = contains p x || contains p y.
Proof.
  intros H. induction x as [|c x IH].
  - cbn [app contains].
    pose proof (starts_with_stop ch p [] y H) as E. cbn [app] in E.
    rewrite E. destruct p; reflexivity.
  - change ((c :: x) ++ ch :: y) with (c :: (x ++ ch :: y)).
    cbn [contains]. rewrite IH.
    change (c :: x ++ ch :: y) with ((c :: x) ++ ch :: y).
    rewrite starts_with_stop by assumption.
    now rewrite orb_assoc.
Qed.


Lemma split_go_skip (sep x s cur : str) :
  split_go sep (List.length x) cur (x ++ s) = split_go sep 0 cur s.
Proof.
  induction x as [|c x IH]; simpl; [|exact IH].
  destruct s; reflexivity.
Qed.

(** Without an occurrence of the separator there is one piece. *)
Lemma split_go_none (sep s cur : str) :
  contains sep s = false -> split_go sep 0 cur s = [rev cur ++ s].
Proof.
  revert cur. induction s as [|c s IH]; intros cur H.
  - simpl. now rewrite app_nil_r.
  - cbn [contains] in H. apply orb_false_iff in H as [H1 H2].
    cbn [split_go]. rewrite H1, IH by assumption.
    simpl. now rewrite <- app_assoc.
Qed.

Lemma split_none (sep s : str) :
  contains sep s = false -> split sep s = [s].
Proof. intros H. unfold split. now rewrite split_go_none. Qed.

(** The first piece ends where the separator first occurs. *)
Lemma split_go_first (sep a b cur : str) :
  sep <> [] ->
  contains sep (a ++ removelast sep) = false ->
  split_go sep 0 cur (a ++ sep ++ b) = (rev cur ++ a) :: split_go sep 0 [] b.
Proof.
  intros Hsep. revert cur. induction a as [|c a IH]; intros cur H.
  - destruct sep as [|d sep]; [congruence|].
    cbn [app]. rewrite app_nil_r.
    change (d :: sep ++ b) with ((d :: sep) ++ b).
    cbn [split_go app].
    change (d :: sep ++ b) with ((d :: sep) ++ b).
    rewrite starts_with_app.
    cbn [List.length pred]. now rewrite split_go_skip.
  - change ((c :: a) ++ removelast sep) with (c :: (a ++ removelast sep)) in H.
    cbn [contains] in H. apply orb_false_iff in H as [H1 H2].
    change ((c :: a) ++ sep ++ b) with (c :: (a ++ sep ++ b)).
    cbn [split_go].
    assert (E : starts_with sep (c :: a ++ sep ++ b) = false).
    { rewrite <- H1.
      rewrite (app_removelast_last "000"%char Hsep) at 2.
      rewrite <- app_assoc.
      change (c :: a ++ removelast sep ++ [last sep "000"%char] ++ b)
        with ((c :: a) ++ removelast sep ++ [last sep "000"%char] ++ b).
      rewrite (app_assoc (c :: a)).
      apply starts_with_long.
      cbn [List.length]. rewrite length_app.
      assert (L : List.length sep = S (List.length (removelast sep))).
      { rewrite (app_removelast_last "000"%char Hsep) at 1.
        rewrite length_app. simpl. lia. }
      lia. }
    rewrite E, IH by assumption.
    simpl. now rewrite <- app_assoc.
Qed.

Lemma split_first (sep a b : str) :
  sep <> [] ->
  contains sep (a ++ removelast sep) = false ->
  split sep (a ++ sep ++ b) = a :: split sep b.
Proof. intros. unfold split. now rewrite split_go_first. Qed.

(** *** [strip] *)

Lemma lstrip_app_ws (w s : str) :
  forallb is_space w = true -> lstrip (w ++ s) = lstrip s.
Proof.
  induction w as [|c w IH]; simpl; intros H; [reflexivity|].
  apply andb_true_iff in H as [H1 H2]. rewrite H1. auto.
Qed.

Lemma lstrip_ws (w : str) : forallb is_space w = true -> lstrip w = [].
Proof.
  intros H. rewrite <- (app_nil_r w). now rewrite lstrip_app_ws.
Qed.

Lemma lstrip_nil_ws (s : str) : lstrip s = [] -> forallb is_space s = true.
Proof.
  induction s as [|c s IH]; simpl; [reflexivity|].
  destruct (is_space c); [auto|discriminate].
Qed.

Lemma lstrip_app_keep (s t : str) :
  lstrip s <> [] -> lstrip (s ++ t) = lstrip s ++ t.
Proof.
  induction s as [|c s IH]; simpl; intros H; [congruence|].
  destruct (is_space c); auto.
Qed.

Lemma rstrip_app_ws (s w : str) :
  forallb is_space w = true -> rstrip (s ++ w) = rstrip s.
Proof.
  intros H. unfold rstrip. rewrite rev_app_distr.
  rewrite lstrip_app_ws; [reflexivity|].
  rewrite forallb_forall in *. intros x Hx. apply H. now apply in_rev.
Qed.

Lemma rstrip_keep (s : str) (c : ascii) :
  is_space c = false -> rstrip (s ++ [c]) = s ++ [c].
Proof.
  intros H. unfold rstrip. rewrite rev_app_distr. simpl. rewrite H.
  simpl. now rewrite rev_involutive.
Qed.

(** White space around a text does not change what [strip] returns. *)
Lemma strip_wrap (w1 c w2 : str) :
  forallb is_space w1 = true -> forallb is_space w2 = true ->
  strip (w1 ++ c ++ w2) = strip c.
Proof.
  intros H1 H2. unfold strip. rewrite lstrip_app_ws by assumption.
  destruct (lstrip c) as [|x l] eqn:E.
  - apply lstrip_nil_ws in E.
    rewrite lstrip_ws; [reflexivity|].
    rewrite forallb_app. now rewrite E, H2.
  - rewrite lstrip_app_keep by congruence.
    rewrite E. now apply rstrip_app_ws.
Qed.

(** A text between two characters that are not white space is its own
    [strip]. *)
Lemma strip_fixed (a b : ascii) (x : str) :
  is_space a = false -> is_space b = false ->
  strip (a :: x ++ [b]) = a :: x ++ [b].
Proof.
  intros Ha Hb. unfold strip. simpl. rewrite Ha.
  change (a :: x ++ [b]) with ((a :: x) ++ [b]).
  now apply rstrip_keep.
Qed.

Lemma lstrip_suffix (s : str) :
  exists a, s = a ++ lstrip s /\ forallb is_space a = true.
Proof.
  induction s as [|c s [a [IH W]]]; simpl.
  - now exists [].
  - destruct (is_space c) eqn:E.
    + exists (c :: a). simpl. rewrite E, W. split; [now f_equal|reflexivity].
    + now exists [].
Qed.

Lemma forallb_rev (f : ascii -> bool) (l : str) :
  forallb f l = true -> forallb f (rev l) = true.
Proof.
  rewrite !forallb_forall. intros H x Hx. apply H. now apply in_rev.
Qed.

Lemma rstrip_prefix (s : str) :
  exists b, s = rstrip s ++ b /\ forallb is_space b = true.
Proof.
  unfold rstrip. destruct (lstrip_suffix (rev s)) as [a [Ha W]].
  exists (rev a). split.
  - rewrite <- rev_app_distr, <- Ha. now rewrite rev_involutive.
  - now apply forallb_rev.
Qed.

(** A text is its [strip] with white space on both sides. *)
Lemma strip_infix (s : str) :
  exists a b, s = a ++ strip s ++ b
              /\ forallb is_space a = true /\ forallb is_space b = true.
Proof.
  destruct (lstrip_suffix s) as [a [Ha Wa]].
  destruct (rstrip_prefix (lstrip s)) as [b [Hb Wb]].
  exists a, b. unfold strip. now rewrite <- Hb.
Qed.

Lemma strip_idem (s : str) : strip (strip s) = strip s.
Proof.
  destruct (strip_infix s) as (a & b & E & Wa & Wb).
  rewrite E at 2. symmetry. now apply strip_wrap.
Qed.

Lemma contains_strip (p s : str) :
  contains p s = false -> contains p (strip s) = false.
Proof.
  intros H. destruct (strip_infix s) as (a & b & E & _).
  rewrite E in H. eapply contains_infix; eauto.
Qed.

End StrFacts.
Import StrFacts.

(* ================================================================== *)
(** ** Facts about the cleaning of the response text *)
(* ================================================================== *)

Module CleanFacts.

Lemma fence_json_split : fence_json = fence ++ lit "json".
Proof. reflexivity. Qed.

Lemma no_fence_json (s : str) :
  contains fence s = false -> contains fence_json s = false.
Proof.
  intros H. destruct (contains fence_json s) eqn:E; [|reflexivity].
  rewrite fence_json_split in E. apply contains_prefix in E. congruence.
Qed.

(** A text without a fence is only stripped. *)
Lemma clean_response_bare (c : str) :
  contains fence c = false -> clean_response c = Ok (strip c).
Proof.
  intros H. unfold clean_response.
  pose proof (contains_strip _ _ H) as Hs.
  now rewrite (no_fence_json _ Hs), Hs.
Qed.

Lemma fenced_shape (c : str) :
  fenced c = "`"%char :: (lit "``json" ++ nl ++ c ++ nl ++ lit "``") ++ ["`"%char].
Proof.
  unfold fenced, fence_json, fence. simpl.
  repeat rewrite <- app_assoc. reflexivity.
Qed.

Lemma fenced_rest_first (c : str) :
  contains fence c = false ->
  split fence (nl ++ c ++ nl ++ fence) = [nl ++ c ++ nl; []].
Proof.
  intros H.
  replace (nl ++ c ++ nl ++ fence) with ((nl ++ c ++ nl) ++ fence ++ [])
    by (rewrite app_nil_r, <- !app_assoc; reflexivity).
  rewrite split_first; [reflexivity|discriminate|].
  rewrite <- !app_assoc. unfold nl at 1 2. cbn [app].
  change ("010"%char :: c ++ "010"%char :: removelast fence)
    with ([] ++ "010"%char :: (c ++ "010"%char :: removelast fence)).
  rewrite !contains_stop by reflexivity.
  rewrite H. reflexivity.
Qed.

Lemma fenced_rest_no_json (c : str) :
  contains fence c = false ->
  contains fence_json (nl ++ c ++ nl ++ fence) = false.
Proof.
  intros H. unfold nl. cbn [app].
  change ("010"%char :: c ++ "010"%char :: fence)
    with ([] ++ "010"%char :: (c ++ "010"%char :: fence)).
  rewrite !contains_stop by reflexivity.
  rewrite (no_fence_json _ H). reflexivity.
Qed.

(** The content of a [json] fence is extracted and stripped. *)
Lemma clean_response_fenced (c : str) :
  contains fence c = false -> clean_response (fenced c) = Ok (strip c).
Proof.
  intros H. unfold clean_response.
  assert (Hstrip : strip (fenced c) = fenced c).
  { rewrite fenced_shape. apply strip_fixed; reflexivity. }
  rewrite Hstrip.
  assert (Hin : contains fence_json (fenced c) = true).
  { unfold fenced. destruct (fence_json ++ nl ++ c ++ nl ++ fence) eqn:E;
      [discriminate|].
    rewrite <- E. cbn [contains].
    destruct (nl ++ c ++ nl ++ fence); simpl; rewrite ?starts_with_app; reflexivity. }
  rewrite Hin.
  assert (Hsplit : split fence_json (fenced c) = [[]; nl ++ c ++ nl ++ fence]).
  { unfold fenced.
    change (fence_json ++ nl ++ c ++ nl ++ fence)
      with ([] ++ fence_json ++ (nl ++ c ++ nl ++ fence)).
    rewrite split_first; [|discriminate|reflexivity].
    now rewrite split_none by (now apply fenced_rest_no_json). }
  rewrite Hsplit. cbn [index nth_error rbind].
  rewrite fenced_rest_first by assumption. cbn [index nth_error rbind].
  f_equal. apply (strip_wrap nl c nl); reflexivity.
Qed.

End CleanFacts.
Import CleanFacts.

(* ================================================================== *)
(** ** Facts about runs: what is shown and what is raised *)
(* ================================================================== *)

Module RunFacts.

Section Emits.
Context {P : event -> Prop}.

Lemma emits_ret {A} (a : A) : emits_only P (ret a).
Proof. intros w. exists []. simpl. now rewrite app_nil_r. Qed.

Lemma emits_raise {A} (e : exn) : emits_only P (@raise A e).
Proof. intros w. exists []. simpl. now rewrite app_nil_r. Qed.

Lemma emits_lift {A} (r : res A) : emits_only P (lift r).
Proof. intros w. exists []. simpl. now rewrite app_nil_r. Qed.

Lemma emits_get_session : emits_only P get_session.
Proof. intros w. exists []. simpl. now rewrite app_nil_r. Qed.

Lemma emits_put_session (s : session) : emits_only P (put_session s).
Proof. intros w. exists []. simpl. now rewrite app_nil_r. Qed.

Lemma emits_get_environ : emits_only P get_environ.
Proof. intros w. exists []. simpl. now rewrite app_nil_r. Qed.

Lemma emits_put_environ (k : str) : emits_only P (put_environ k).
Proof. intros w. exists []. simpl. now rewrite app_nil_r. Qed.

Lemma emits_emit (e : event) : P e -> emits_only P (emit e).
Proof. intros H w. exists [e]. simpl. auto. Qed.

Lemma emits_bind {A B} (m : M A) (k : A -> M B) :
  emits_only P m -> (forall a, emits_only P (k a)) ->
  emits_only P (bind m k).
Proof.
  intros Hm Hk w. unfold bind.
  destruct (Hm w) as (evs & E1 & F1).
  destruct (m w) as [w' [a|e]]; simpl in *.
  - destruct (Hk a w') as (evs' & E2 & F2).
    exists (evs ++ evs'). rewrite E2, E1, app_assoc.
    split; [reflexivity|]. apply Forall_app. auto.
  - exists evs. auto.
Qed.

Lemma emits_for_each {A} (l : list A) (body : A -> M unit) :
  (forall x, emits_only P (body x)) -> emits_only P (for_each l body).
Proof.
  intros H. induction l as [|x l IH]; simpl.
  - apply emits_ret.
  - apply emits_bind; auto.
Qed.

Lemma emits_for_enumerate {A} (l : list A) (body : nat -> A -> M unit) :
  (forall i x, emits_only P (body i x)) ->
  forall start, emits_only P (for_enumerate start l body).
Proof.
  intros H. induction l as [|x l IH]; intros start; simpl.
  - apply emits_ret.
  - apply emits_bind; auto.
Qed.
End Emits.

Section Raises.
Context {E : exn -> Prop}.

Lemma raises_ret {A} (a : A) : raises_only E (ret a).
Proof. intros w. exact I. Qed.

Lemma raises_raise {A} (e : exn) : E e -> raises_only E (@raise A e).
Proof. intros H w. exact H. Qed.

Lemma raises_lift {A} (r : res A) :
  res_raises_only E r -> raises_only E (lift r).
Proof. intros H w. exact H. Qed.

Lemma raises_emit (e : event) : raises_only E (emit e).
Proof. intros w. exact I. Qed.

Lemma raises_get_session : raises_only E get_session.
Proof. intros w. exact I. Qed.

Lemma raises_put_session (s : session) : raises_only E (put_session s).
Proof. intros w. exact I. Qed.

Lemma raises_bind {A B} (m : M A) (k : A -> M B) :
  raises_only E m -> (forall a, raises_only E (k a)) ->
  raises_only E (bind m k).
Proof.
  intros Hm Hk w. unfold bind. specialize (Hm w).
  destruct (m w) as [w' [a|e]]; simpl in *.
  - apply Hk.
  - exact Hm.
Qed.

Lemma raises_for_each {A} (l : list A) (body : A -> M unit) :
  (forall x, raises_only E (body x)) -> raises_only E (for_each l body).
Proof.
  intros H. induction l as [|x l IH]; simpl.
  - apply raises_ret.
  - apply raises_bind; auto.
Qed.

Lemma raises_for_enumerate {A} (l : list A) (body : nat -> A -> M unit) :
  (forall i x, raises_only E (body i x)) ->
  forall start, raises_only E (for_enumerate start l body).
Proof.
  intros H. induction l as [|x l IH]; intros start; simpl.
  - apply raises_ret.
  - apply raises_bind; auto.
Qed.
End Raises.

Lemma res_raises_rbind {E : exn -> Prop} {A B} (r : res A) (k : A -> res B) :
  res_raises_only E r -> (forall a, res_raises_only E (k a)) ->
  res_raises_only E (rbind r k).
Proof. intros Hr Hk. destruct r; simpl; auto. Qed.

(** The operations on values never divide, except [truediv]. *)
Lemma getitem_no_zd v k : res_raises_only not_zero_division (getitem v k).
Proof. destruct v; simpl; try discriminate. destruct (dict_get k fields); simpl; [exact I|discriminate]. Qed.

Lemma get_default_no_zd v k d : res_raises_only not_zero_division (get_default v k d).
Proof. destruct v; simpl; try discriminate. destruct (dict_get k fields); exact I. Qed.

Lemma py_iter_no_zd v : res_raises_only not_zero_division (py_iter v).
Proof. destruct v; simpl; try exact I; discriminate. Qed.

Lemma py_len_no_zd v : res_raises_only not_zero_division (py_len v).
Proof. destruct v; simpl; try exact I; discriminate. Qed.

Lemma fmt_f0_no_zd c v : res_raises_only not_zero_division (fmt_f0 c v).
Proof. destruct v as [| | | | |]; simpl; try exact I; discriminate. Qed.

Lemma title_no_zd v : res_raises_only not_zero_division (title v).
Proof. destruct v; simpl; try exact I; discriminate. Qed.

Lemma truediv_no_zd v n :
  n <> 0%Z -> res_raises_only not_zero_division (truediv v n).
Proof.
  intros H. unfold truediv. destruct (as_int v); [|discriminate].
  destruct (Z.eqb_spec n 0); [contradiction|exact I].
Qed.

Lemma text_activities_no_zd acts :
  forall text, res_raises_only not_zero_division (text_activities text acts).
Proof.
  induction acts as [|a acts IH]; intros text; cbn [text_activities];
    [exact I|].
  repeat (apply res_raises_rbind; [apply getitem_no_zd|intros ?]).
  apply IH.
Qed.

Lemma text_days_no_zd days :
  forall text, res_raises_only not_zero_division (text_days text days).
Proof.
  induction days as [|d days IH]; intros text; cbn [text_days]; [exact I|].
  repeat (apply res_raises_rbind; [apply getitem_no_zd|intros ?]).
  apply res_raises_rbind; [apply py_iter_no_zd|intros ?].
  apply res_raises_rbind; [apply text_activities_no_zd|intros ?].
  apply IH.
Qed.

Lemma to_text_no_zd data : res_raises_only not_zero_division (to_text data).
Proof.
  unfold to_text.
  repeat (apply res_raises_rbind; [apply getitem_no_zd|intros ?]).
  apply res_raises_rbind; [apply py_iter_no_zd|intros ?].
  apply text_days_no_zd.
Qed.


Create HintDb zd.
#[export] Hint Resolve getitem_no_zd get_default_no_zd py_iter_no_zd
  py_len_no_zd fmt_f0_no_zd title_no_zd to_text_no_zd : zd.

Ltac raises_step :=
  match goal with
  | |- raises_only _ (bind _ _) => apply raises_bind; [|intros ?]
  | |- raises_only _ (ret _) => apply raises_ret
  | |- raises_only _ (emit _) => apply raises_emit
  | |- raises_only _ (lift _) => apply raises_lift; auto with zd
  | |- raises_only _ (for_each _ _) => apply raises_for_each; intros ?
  | |- raises_only _ (for_enumerate _ _ _) =>
      apply raises_for_enumerate; intros ? ?
  | |- raises_only _ get_session => apply raises_get_session
  | |- raises_only _ (put_session _) => apply raises_put_session
  | |- raises_only _ (raise _) => apply raises_raise; discriminate
  | |- raises_only _ (if ?b then _ else _) => destruct b
  end.

Ltac emits_step :=
  match goal with
  | |- emits_only _ (bind _ _) => apply emits_bind; [|intros ?]
  | |- emits_only _ (ret _) => apply emits_ret
  | |- emits_only _ (emit _) => apply emits_emit; try (intros []); try exact I
  | |- emits_only _ (lift _) => apply emits_lift
  | |- emits_only _ (raise _) => apply emits_raise
  | |- emits_only _ (for_each _ _) => apply emits_for_each; intros ?
  | |- emits_only _ (for_enumerate _ _ _) =>
      apply emits_for_enumerate; intros ? ?
  | |- emits_only _ get_session => apply emits_get_session
  | |- emits_only _ (put_session _) => apply emits_put_session
  | |- emits_only _ get_environ => apply emits_get_environ
  | |- emits_only _ (put_environ _) => apply emits_put_environ
  | |- emits_only _ (if ?b then _ else _) => destruct b
  | |- emits_only _ (match ?x with _ => _ end) => destruct x
  end.

Lemma st_columns_no_zd n : raises_only not_zero_division (st_columns n).
Proof. destruct n; simpl; [apply raises_raise; discriminate|apply raises_emit]. Qed.

Lemma st_columns_emits {P : event -> Prop} n :
  P (Columns n) -> emits_only P (st_columns n).
Proof. intros H. destruct n; simpl; [apply emits_raise|now apply emits_emit]. Qed.

Lemma show_day_no_zd day : raises_only not_zero_division (show_day day).
Proof.
  unfold show_day, show_activity, show_meal.
  repeat (first [apply st_columns_no_zd | raises_step]).
Qed.

Lemma show_list_no_zd data sec key :
  raises_only not_zero_division (show_list data sec key).
Proof. unfold show_list. repeat raises_step. Qed.

(** With a people count other than zero, drawing the itinerary never
    ends in a division by zero. *)
Lemma show_itinerary_no_zd data req nc :
  num_people req <> 0%Z ->
  raises_only not_zero_division (show_itinerary data req nc).
Proof.
  intros H. unfold show_itinerary.
  repeat (first [ apply st_columns_no_zd | apply show_day_no_zd
                | apply show_list_no_zd
                | apply raises_lift, truediv_no_zd, H
                | raises_step ]).
Qed.

Lemma show_itinerary_no_call data req nc :
  emits_only not_model_call (show_itinerary data req nc).
Proof.
  unfold show_itinerary, show_list, show_day, show_activity, show_meal.
  repeat (first [ apply st_columns_emits; intros [] | emits_step ]).
Qed.

End RunFacts.
Import RunFacts.

(* ================================================================== *)
(** ** The response normaliser, the generate handler, the credentials *)
(* ================================================================== *)

(** What [generate_itinerary_with_gemini] does with a reply whose cleaned
    text parses. *)
Lemma generate_parsed json_loads client req w raw text parsed :
  client req = ReplyText raw ->
  clean_response raw = Ok text ->
  json_loads text = Some parsed ->
  generate_itinerary_with_gemini json_loads client req w =
  match setitem parsed (lit "destination") (JStr (destination req)) with
  | Ok it => (add_out [GenerateContent req] w, Ok (Some it))
  | Raise e => (add_out [GenerateContent req; AiError e] w, Ok None)
  end.
Proof.
  intros Hc Hclean Hload.
  unfold generate_itinerary_with_gemini, bind, emit, ret, add_out.
  cbn [fst snd]. rewrite Hc, Hclean, Hload.
  destruct (setitem parsed (lit "destination") (JStr (destination req)));
    cbn; rewrite <- ?app_assoc; reflexivity.
Qed.

Lemma dict_get_set_same k v d : dict_get k (dict_set k v d) = Some v.
Proof.
  induction d as [|[k' v'] d IH]; simpl.
  - now rewrite str_eqb_refl.
  - destruct (str_eqb k' k) eqn:E; simpl; rewrite E; auto.
Qed.

Lemma dict_get_set_other k k' v d :
  k' <> k -> dict_get k' (dict_set k v d) = dict_get k' d.
Proof.
  intros Hne. induction d as [|[k0 v0] d IH]; simpl.
  - destruct (str_eqb k k') eqn:E; [|reflexivity].
    apply str_eqb_eq in E. congruence.
  - destruct (str_eqb k0 k) eqn:E; simpl.
    + destruct (str_eqb k0 k') eqn:E'; [|reflexivity].
      apply str_eqb_eq in E, E'. congruence.
    + destruct (str_eqb k0 k'); auto.
Qed.

(** C1 (amended).  When the cleaned text of the reply parses, the parsed
    value is not validated: an object is returned whatever its fields
    are, with [destination] set to the requested one and every other key
    left as parsed (none added, none coerced); a value that is not an
    object ends the attempt with the generic error and [None]. *)
Theorem c1_parsed_reply_is_not_validated
        json_loads client req w raw text parsed :
  client req = ReplyText raw ->
  clean_response raw = Ok text ->
  json_loads text = Some parsed ->
  match parsed with
  | JObj d =>
      exists d',
        generate_itinerary_with_gemini json_loads client req w
        = (add_out [GenerateContent req] w, Ok (Some (JObj d')))
        /\ dict_get (lit "destination") d' = Some (JStr (destination req))
        /\ forall k, k <> lit "destination" -> dict_get k d' = dict_get k d
  | _ =>
      generate_itinerary_with_gemini json_loads client req w
      = (add_out [GenerateContent req; AiError TypeError] w, Ok None)
  end.
Proof.
  intros Hc Hclean Hload.
  rewrite (@generate_parsed _ _ _ w _ _ _ Hc Hclean Hload).
  destruct parsed; try reflexivity.
  cbn [setitem].
  eexists. split; [reflexivity|]. split.
  - apply dict_get_set_same.
  - intros k Hk. now apply dict_get_set_other.
Qed.

Lemma c1_parsed_reply_is_not_validated_witness :
  exists d',
    generate_itinerary_with_gemini json_loads_ref
      (Samples.reply_with Samples.partial_reply)
      Samples.lisbon_request Samples.fresh_world
    = (add_out [GenerateContent Samples.lisbon_request] Samples.fresh_world,
       Ok (Some (JObj d')))
    /\ dict_get (lit "destination") d' = Some (JStr (lit "Lisbon"))
    /\ forall k, k <> lit "destination" ->
         dict_get k d'
         = dict_get k [(lit "overview", JStr (lit "x"));
                       (lit "total_estimated_cost", JStr (lit "1500"))].
Proof.
  apply (@c1_parsed_reply_is_not_validated json_loads_ref
           (Samples.reply_with Samples.partial_reply)
           Samples.lisbon_request Samples.fresh_world
           Samples.partial_reply Samples.partial_reply
           (JObj [(lit "overview", JStr (lit "x"));
                  (lit "total_estimated_cost", JStr (lit "1500"))]));
    vm_compute; reflexivity.
Defined.

(** C1 (as stated) fails.  The reply
    [{"overview": "x", "total_estimated_cost": "1500"}] parses; the
    validation of the specification names [daily_itineraries] as missing,
    and would coerce the total to the number 1500.  The script reports no
    error: it returns the object, its total still a string. *)
Lemma c1_counterexample :
  let parsed := [(lit "overview", JStr (lit "x"));
                 (lit "total_estimated_cost", JStr (lit "1500"))] in
  clean_response Samples.partial_reply = Ok Samples.partial_reply /\
  json_loads_ref Samples.partial_reply = Some (JObj parsed) /\
  Spec.schema_mismatch parsed = Some (lit "daily_itineraries") /\
  Spec.coerce_number (JStr (lit "1500")) = JNum 1500 /\
  snd (generate_itinerary_with_gemini json_loads_ref
         (Samples.reply_with Samples.partial_reply)
         Samples.lisbon_request Samples.fresh_world)
  = Ok (Some (JObj [(lit "overview", JStr (lit "x"));
                    (lit "total_estimated_cost", JStr (lit "1500"));
                    (lit "destination", JStr (lit "Lisbon"))])).
Proof. vm_compute. repeat split; reflexivity. Qed.

Lemma json_dumps_obj_strip d :
  strip (json_dumps (JObj d)) = json_dumps (JObj d).
Proof.
  change (json_dumps (JObj d))
    with ("{"%char ::
          join (lit ", ")
            (map (fun kv => dumps_str (fst kv) ++ lit ": " ++ json_dumps (snd kv)) d)
          ++ ["}"%char]).
  apply strip_fixed; reflexivity.
Qed.

Lemma set_destination_fields dest it :
  dict_set (lit "destination") (JStr dest) (itinerary_fields it)
  = itinerary_fields (with_destination dest it).
Proof. reflexivity. Qed.

(** C3 (amended).  For every itinerary and request: if the serialised
    itinerary has no run of three backticks and the parser reads the
    serialisation back, then the reply made of that text is normalised
    to the itinerary with its destination replaced by the requested one,
    every other field as it was. *)
Theorem c3_round_trip_without_fence json_loads client it req w :
  client req = ReplyText (json_dumps (itinerary_to_json it)) ->
  json_loads (json_dumps (itinerary_to_json it)) = Some (itinerary_to_json it) ->
  contains fence (json_dumps (itinerary_to_json it)) = false ->
  generate_itinerary_with_gemini json_loads client req w
  = (add_out [GenerateContent req] w,
     Ok (Some (itinerary_to_json (with_destination (destination req) it)))).
Proof.
  intros Hc Hload Hfence.
  assert (Hclean : clean_response (json_dumps (itinerary_to_json it))
                   = Ok (json_dumps (itinerary_to_json it))).
  { rewrite clean_response_bare by assumption.
    unfold itinerary_to_json. now rewrite json_dumps_obj_strip. }
  rewrite (@generate_parsed _ _ _ w _ _ _ Hc Hclean Hload).
  unfold itinerary_to_json. cbn [setitem].
  now rewrite set_destination_fields.
Qed.

Lemma c3_round_trip_without_fence_witness :
  generate_itinerary_with_gemini json_loads_ref
    (Samples.reply_with (json_dumps (itinerary_to_json Samples.lisbon_itinerary)))
    Samples.lisbon_request Samples.fresh_world
  = (add_out [GenerateContent Samples.lisbon_request] Samples.fresh_world,
     Ok (Some (itinerary_to_json
                 (with_destination (lit "Lisbon") Samples.lisbon_itinerary)))).
Proof.
  apply (@c3_round_trip_without_fence json_loads_ref
           (Samples.reply_with (json_dumps (itinerary_to_json Samples.lisbon_itinerary)))
           Samples.lisbon_itinerary Samples.lisbon_request Samples.fresh_world);
    vm_compute; reflexivity.
Defined.

(** C3 (as stated) fails.  The itinerary whose overview is [a```b]
    serialises to a text that the parser reads back, yet the reply made
    of that text is cut at the backticks, does not parse, and the attempt
    ends with [None]. *)
Lemma c3_counterexample :
  let text := json_dumps (itinerary_to_json Samples.fence_in_overview) in
  json_loads_ref text = Some (itinerary_to_json Samples.fence_in_overview) /\
  clean_response text
  = Ok (jlit "b', 'daily_itineraries': [{'day': 1, 'title': 'Old Town', 'activities': [{'time': '9:00 AM', 'activity': 'Tram 28', 'description': 'Ride through Alfama', 'duration': '2 hours', 'cost': 50}, {'time': '2:00 PM', 'activity': 'Castelo de S. Jorge', 'description': 'Views over the city', 'duration': '3 hours', 'cost': 15}], 'meals': [{'meal': 'lunch', 'restaurant': 'Tasca do Chico', 'cuisine': 'Portuguese', 'cost': 20}], 'estimated_cost': 200, 'travel_tips': 'Wear good shoes'}], 'famous_attractions': ['Torre de Belem', 'Alfama'], 'local_cuisine': ['Bacalhau'], 'travel_tips': ['Carry cash'], 'packing_suggestions': ['Sunscreen'], 'total_estimated_cost': 1500, 'destination': 'Lisboa'}") /\
  snd (generate_itinerary_with_gemini json_loads_ref (Samples.reply_with text)
         Samples.lisbon_request Samples.fresh_world)
  = Ok None.
Proof. vm_compute. repeat split; reflexivity. Qed.

(** C7 (amended).  For every content without a run of three backticks,
    the reply made of the content inside a [json] code fence and the
    reply made of the bare trimmed content give the same run: the same
    events and the same result. *)
Theorem c7_fenced_equals_bare json_loads content req w :
  contains fence content = false ->
  generate_itinerary_with_gemini json_loads
    (fun _ => ReplyText (fenced content)) req w
  = generate_itinerary_with_gemini json_loads
      (fun _ => ReplyText (strip content)) req w.
Proof.
  intros H. unfold generate_itinerary_with_gemini.
  rewrite clean_response_fenced by assumption.
  rewrite clean_response_bare by (now apply contains_strip).
  now rewrite strip_idem.
Qed.

Lemma c7_fenced_equals_bare_witness :
  generate_itinerary_with_gemini json_loads_ref
    (fun _ => ReplyText (fenced Samples.partial_reply))
    Samples.lisbon_request Samples.fresh_world
  = generate_itinerary_with_gemini json_loads_ref
      (fun _ => ReplyText (strip Samples.partial_reply))
      Samples.lisbon_request Samples.fresh_world.
Proof.
  apply (@c7_fenced_equals_bare json_loads_ref Samples.partial_reply
           Samples.lisbon_request Samples.fresh_world).
  vm_compute. reflexivity.
Defined.

(** C7 (as stated) fails.  For the content [{}```[]], which is its own
    trimmed form, the fenced reply is normalised to an itinerary and the
    bare reply to [None]. *)
Lemma c7_counterexample :
  let content := lit "{}```[]" in
  strip content = content /\
  snd (generate_itinerary_with_gemini json_loads_ref
         (fun _ => ReplyText (fenced content))
         Samples.lisbon_request Samples.fresh_world)
  = Ok (Some (JObj [(lit "destination", JStr (lit "Lisbon"))])) /\
  snd (generate_itinerary_with_gemini json_loads_ref
         (fun _ => ReplyText (strip content))
         Samples.lisbon_request Samples.fresh_world)
  = Ok None.
Proof. vm_compute. repeat split; reflexivity. Qed.

(** *** The generate handler *)

Lemma bind_emit {A} (e : event) (k : unit -> M A) (w : world) :
  bind (emit e) k w = k tt (add_out [e] w).
Proof. reflexivity. Qed.

Lemma add_out_add_out (e1 e2 : list event) (w : world) :
  add_out e2 (add_out e1 w) = add_out (e1 ++ e2) w.
Proof. unfold add_out. simpl. now rewrite app_assoc. Qed.

(** A failed attempt shows its error and returns [None]. *)
Lemma generate_failure json_loads client req w :
  attempt_fails json_loads client req = true ->
  generate_itinerary_with_gemini json_loads client req w
  = (add_out (GenerateContent req :: failure_events json_loads client req) w,
     Ok None).
Proof.
  unfold attempt_fails, failure_events, generate_itinerary_with_gemini,
    bind, emit, ret, add_out.
  intros H. cbn [fst snd].
  destruct (client req) as [raw|msg].
  - destruct (clean_response raw) as [text|e].
    + destruct (json_loads text) as [parsed|].
      * destruct parsed; try discriminate;
          (cbn; rewrite <- ?app_assoc; reflexivity).
      * cbn. rewrite <- ?app_assoc. reflexivity.
    + cbn. rewrite <- ?app_assoc. reflexivity.
  - cbn. rewrite <- ?app_assoc. reflexivity.
Qed.

(** The handler on a valid submission whose attempt fails. *)
Lemma on_generate_failure json_loads client req w :
  destination req <> [] ->
  interests req <> [] ->
  attempt_fails json_loads client req = true ->
  on_generate json_loads client req w
  = (add_out (failed_attempt_events json_loads client req) w, Ok tt).
Proof.
  intros Hd Hi Hf. unfold on_generate.
  destruct (destination req) as [|c d]; [congruence|].
  destruct (interests req) as [|i rest]; [congruence|].
  rewrite !bind_emit, !add_out_add_out.
  unfold bind at 1. rewrite (@generate_failure json_loads client req _ Hf).
  cbn [store_result fst snd].
  unfold emit, add_out, failed_attempt_events, progress_events.
  cbn [environ_key sess out fst snd app]. rewrite <- !app_assoc.
  reflexivity.
Qed.

(** C2 (amended).  The errors of the code are: the model call fails, the
    cleaned reply does not parse, or it parses to a value that is not an
    object.  For every generation attempt (generate clicked, destination
    and interests given) that ends in one of them, the handler returns
    normally having only shown the progress lines, the call, the error
    and, last, the status turned to its error state; the session and the
    environment after it are the ones before it; and what is drawn next
    is the itinerary stored before the attempt, or the welcome screen if
    there was none. *)
Theorem c2_failed_attempt_keeps_prior_itinerary json_loads client inp w :
  generate_clicked inp = true ->
  destination (form inp) <> [] ->
  interests (form inp) <> [] ->
  attempt_fails json_loads client (form inp) = true ->
  let shown := failed_attempt_events json_loads client (form inp) in
  let r := on_generate json_loads client (form inp) w in
  r = (add_out shown w, Ok tt)
  /\ sess (fst r) = sess w
  /\ environ_key (fst r) = environ_key w
  /\ last shown Balloons
     = StatusUpdate (lit "Failed to generate itinerary") Errored
  /\ after_setup json_loads client inp true w
     = bind (match itinerary (sess w) with
             | Some data => show_itinerary data (form inp) (new_clicked inp)
             | None => emit (WelcomeScreen true)
             end)
            (fun _ => footer) (add_out shown w).
Proof.
  intros Hg Hd Hi Hf shown r.
  pose proof (@on_generate_failure json_loads client (form inp) w Hd Hi Hf)
    as E.
  fold shown in E. fold r in E.
  split; [exact E|]. rewrite E.
  split; [reflexivity|]. split; [reflexivity|].
  split.
  - unfold shown, failed_attempt_events.
    rewrite app_comm_cons, app_assoc. apply last_last.
  - unfold after_setup. rewrite Hg. cbn [andb].
    unfold bind at 1. cbn [ret fst snd].
    unfold bind at 1. fold r. rewrite E. cbn [fst snd].
    unfold display. unfold bind at 2. unfold get_session. cbn [fst snd].
    reflexivity.
Qed.

Lemma c2_failed_attempt_keeps_prior_itinerary_witness :
  let inp := Samples.click_generate Samples.lisbon_request in
  let w := Samples.world_with Samples.lisbon_itinerary in
  let shown := failed_attempt_events json_loads_ref Samples.reply_error
                 (form inp) in
  let r := on_generate json_loads_ref Samples.reply_error (form inp) w in
  r = (add_out shown w, Ok tt)
  /\ sess (fst r) = sess w
  /\ environ_key (fst r) = environ_key w
  /\ last shown Balloons
     = StatusUpdate (lit "Failed to generate itinerary") Errored
  /\ after_setup json_loads_ref Samples.reply_error inp true w
     = bind (match itinerary (sess w) with
             | Some data => show_itinerary data (form inp) (new_clicked inp)
             | None => emit (WelcomeScreen true)
             end)
            (fun _ => footer) (add_out shown w).
Proof.
  intros inp w.
  apply (@c2_failed_attempt_keeps_prior_itinerary json_loads_ref
           Samples.reply_error inp w).
  - reflexivity.
  - discriminate.
  - discriminate.
  - reflexivity.
Defined.

(** C2 (as stated) fails on a schema error.  An itinerary is stored; the
    reply to the next attempt is the object
    [{"overview": "x", "total_estimated_cost": "1500"}], in which the
    validation of the specification finds [daily_itineraries] missing.
    The handler reports success and stores the object in place of the
    prior itinerary, and the display that follows stops at the total,
    a string that line 297 cannot format. *)
Lemma c2_counterexample :
  let w := Samples.world_with Samples.lisbon_itinerary in
  let parsed := [(lit "overview", JStr (lit "x"));
                 (lit "total_estimated_cost", JStr (lit "1500"))] in
  let client := Samples.reply_with Samples.partial_reply in
  let r := on_generate json_loads_ref client Samples.lisbon_request w in
  json_loads_ref Samples.partial_reply = Some (JObj parsed) /\
  Spec.schema_mismatch parsed = Some (lit "daily_itineraries") /\
  itinerary (sess w) = Some (itinerary_to_json Samples.lisbon_itinerary) /\
  r = ({| environ_key := environ_key w;
          sess := {| api_key := api_key (sess w);
                     itinerary :=
                       Some (JObj (parsed ++
                                   [(lit "destination",
                                     JStr (lit "Lisbon"))])) |};
          out := progress_events ++
                 [GenerateContent Samples.lisbon_request;
                  StatusUpdate (lit "AI has created your perfect itinerary!")
                               Complete;
                  Balloons] |}, Ok tt) /\
  sess (fst r) <> sess w /\
  snd (after_setup json_loads_ref client
         (Samples.click_generate Samples.lisbon_request) true w)
  = Raise ValueError.
Proof.
  vm_compute. repeat split; try reflexivity. discriminate.
Qed.

(** *** Input validation *)

(** C9.  For every submission with an empty destination or an empty
    interest list, the handler only shows an error message: the world is
    the one before plus that message, so the session is untouched and no
    model call is among the events. *)
Theorem c9_invalid_submission_rejected json_loads client req w :
  destination req = [] \/ interests req = [] ->
  exists msg,
    on_generate json_loads client req w = (add_out [StError msg] w, Ok tt)
    /\ (msg = lit "Please enter a destination!"
        \/ msg = lit "Please select at least one interest!")
    /\ Forall not_model_call [StError msg].
Proof.
  intros H. unfold on_generate.
  destruct (destination req) as [|c d].
  - eexists. split; [reflexivity|]. split; [now left|].
    constructor; [intros []|constructor].
  - destruct H as [H|H]; [discriminate|]. rewrite H.
    eexists. split; [reflexivity|]. split; [now right|].
    constructor; [intros []|constructor].
Qed.

Lemma c9_invalid_submission_rejected_witness :
  exists msg,
    on_generate json_loads_ref (Samples.reply_with Samples.partial_reply)
      Samples.no_destination_request Samples.fresh_world
    = (add_out [StError msg] Samples.fresh_world, Ok tt)
    /\ (msg = lit "Please enter a destination!"
        \/ msg = lit "Please select at least one interest!")
    /\ Forall not_model_call [StError msg].
Proof.
  apply (@c9_invalid_submission_rejected json_loads_ref
           (Samples.reply_with Samples.partial_reply)
           Samples.no_destination_request Samples.fresh_world).
  left. reflexivity.
Defined.

(** *** Credentials *)

Lemma setup_gemini_api_spec configure w :
  setup_gemini_api configure w =
  match resolve_key (environ_key w) (sess w) with
  | [] => (w, Ok false)
  | c :: k =>
      match configure (c :: k) with
      | None => (add_out [Configure (c :: k)] w, Ok true)
      | Some msg => (add_out [ConfigureFailed msg] w, Ok false)
      end
  end.
Proof.
  unfold setup_gemini_api, bind, get_environ, get_session. cbn.
  destruct (resolve_key (environ_key w) (sess w)); [reflexivity|].
  destruct (configure (a :: s)); reflexivity.
Qed.

Lemma setup_gemini_api_result configure w :
  snd (setup_gemini_api configure w) = Ok (would_configure configure w).
Proof.
  rewrite setup_gemini_api_spec. unfold would_configure.
  destruct (resolve_key (environ_key w) (sess w)); [reflexivity|].
  destruct (configure (a :: s)); reflexivity.
Qed.

Lemma setup_gemini_api_world configure w :
  environ_key (fst (setup_gemini_api configure w)) = environ_key w /\
  sess (fst (setup_gemini_api configure w)) = sess w.
Proof.
  rewrite setup_gemini_api_spec.
  destruct (resolve_key (environ_key w) (sess w)); [auto|].
  destruct (configure (a :: s)); auto.
Qed.

Lemma no_credential_resolve w :
  no_credential w -> resolve_key (environ_key w) (sess w) = [].
Proof.
  intros [[He|He] [Hs|Hs]]; unfold resolve_key; rewrite He, Hs; reflexivity.
Qed.

Lemma resolve_key_nonempty env ss c k :
  resolve_key env ss = c :: k ->
  (exists c' k', env = Some (c' :: k')) \/
  (exists c' k', api_key ss = Some (c' :: k')).
Proof.
  unfold resolve_key. intros H.
  destruct env as [[|c' k']|]; eauto;
    destruct (api_key ss) as [[|c' k']|]; try discriminate; eauto.
Qed.

Lemma emits_only_at {A} (P : event -> Prop) (m : M A) w :
  emits_only P m -> emits_at P m w.
Proof. intros H. apply H. Qed.

Lemma emits_weaken {A} (P Q : event -> Prop) (m : M A) :
  (forall e, P e -> Q e) -> emits_only P m -> emits_only Q m.
Proof.
  intros HPQ H w. destruct (H w) as (evs & E & F).
  exists evs. split; [assumption|]. eapply Forall_impl; eauto.
Qed.

Lemma emits_at_bind {A B} (P : event -> Prop) (m : M A) (k : A -> M B) w :
  emits_at P m w ->
  (forall a, snd (m w) = Ok a -> emits_at P (k a) (fst (m w))) ->
  emits_at P (bind m k) w.
Proof.
  intros (evs & E1 & F1) Hk. unfold emits_at, bind.
  destruct (m w) as [w' [a|e]]; simpl in *.
  - destruct (Hk a eq_refl) as (evs' & E2 & F2).
    exists (evs ++ evs'). rewrite E2, E1, app_assoc.
    split; [reflexivity|]. apply Forall_app. auto.
  - exists evs. auto.
Qed.

Lemma setup_no_call configure :
  emits_only not_model_call (setup_gemini_api configure).
Proof. unfold setup_gemini_api. repeat emits_step. Qed.

Lemma api_key_setup_no_call configure inp :
  emits_only not_model_call (api_key_setup configure inp).
Proof.
  unfold api_key_setup.
  repeat (first [apply setup_no_call | emits_step]).
Qed.

Lemma display_no_call inp ac : emits_only not_model_call (display inp ac).
Proof.
  unfold display. repeat (first [apply show_itinerary_no_call | emits_step]).
Qed.

(** Without a configured API, the rest of the run calls no model. *)
Lemma after_setup_unconfigured json_loads client inp :
  emits_only not_model_call (after_setup json_loads client inp false).
Proof.
  unfold after_setup, footer. rewrite andb_false_r.
  repeat (first [apply display_no_call | emits_step]).
Qed.

Lemma on_generate_emits json_loads client req :
  emits_only any_event (on_generate json_loads client req).
Proof.
  unfold on_generate, generate_itinerary_with_gemini.
  repeat (first [apply emits_emit; exact I | emits_step]).
Qed.

Lemma after_setup_emits json_loads client inp ac :
  emits_only any_event (after_setup json_loads client inp ac).
Proof.
  unfold after_setup, footer.
  repeat (first [ apply on_generate_emits
                | apply (emits_weaken (P:=not_model_call)); [intros; exact I|];
                  apply display_no_call
                | apply emits_emit; exact I
                | emits_step ]).
Qed.

(** With no credential, the expander either leaves a world in which the
    API would still not be configured, or ends the run. *)
Lemma api_key_setup_keyless configure inp w :
  no_credential w ->
  snd (api_key_setup configure inp w) = Ok tt ->
  would_configure configure (fst (api_key_setup configure inp w)) = false.
Proof.
  intros Hno. pose proof (no_credential_resolve Hno) as Hr.
  unfold api_key_setup.
  cbv beta iota delta [bind].
  rewrite setup_gemini_api_spec, Hr.
  destruct (save_clicked inp).
  - cbv beta iota delta [get_session put_session put_environ].
    rewrite setup_gemini_api_spec.
    cbn [environ_key sess api_key resolve_key].
    unfold would_configure.
    destruct (api_key_input inp) as [|c k] eqn:Ek.
    + cbn. intros _. reflexivity.
    + cbn [resolve_key]. destruct (configure (c :: k)) eqn:Ec.
      * cbn. rewrite Ec. reflexivity.
      * cbn. discriminate.
  - cbn. intros _. unfold would_configure. now rewrite Hr.
Qed.

Lemma not_model_call_not_exists evs :
  Forall not_model_call evs -> ~ Exists is_model_call evs.
Proof.
  intros F X. apply Exists_exists in X as (e & He & Hc).
  rewrite Forall_forall in F. exact (F e He Hc).
Qed.

(** The events of a run either hold no model call, or hold the
    configuration of a non-empty key. *)
Lemma script_run_events json_loads client configure inp w :
  exists evs,
    out (fst (script_run json_loads client configure inp w)) = out w ++ evs
    /\ (Forall not_model_call evs \/ Exists is_configure_nonempty evs).
Proof.
  unfold script_run.
  destruct (api_key_setup_no_call configure inp w) as (evs1 & E1 & F1).
  unfold bind at 1.
  destruct (api_key_setup configure inp w) as [w1 [[]|e]]; cbn [fst] in E1.
  - unfold bind at 1. rewrite setup_gemini_api_spec.
    destruct (resolve_key (environ_key w1) (sess w1)) as [|c k].
    + destruct (after_setup_unconfigured json_loads client inp w1)
        as (evs3 & E3 & F3).
      exists (evs1 ++ evs3). rewrite E3, E1, app_assoc.
      split; [reflexivity|]. left. apply Forall_app. auto.
    + destruct (configure (c :: k)).
      * destruct (after_setup_unconfigured json_loads client inp
                    (add_out [ConfigureFailed s] w1)) as (evs3 & E3 & F3).
        exists (evs1 ++ ConfigureFailed s :: evs3).
        rewrite E3. cbn [add_out out]. rewrite E1, <- !app_assoc.
        split; [reflexivity|]. left. apply Forall_app. split; [assumption|].
        constructor; [intros []|assumption].
      * destruct (after_setup_emits json_loads client inp true
                    (add_out [Configure (c :: k)] w1)) as (evs3 & E3 & _).
        exists (evs1 ++ Configure (c :: k) :: evs3).
        rewrite E3. cbn [add_out out]. rewrite E1, <- !app_assoc.
        split; [reflexivity|]. right.
        apply Exists_app. right. left. exact I.
  - exists evs1. cbn [fst]. auto.
Qed.

(** C10.  [setup_gemini_api] reports the API configured only when the
    environment variable or the saved key is a non-empty string.  With
    neither, it reports [False] and the whole run, whatever was clicked,
    calls no model.  In every run, a model call is among the events only
    if the configuration of a non-empty key is. *)
Theorem c10_no_generation_without_key json_loads client configure inp w :
  (snd (setup_gemini_api configure w) = Ok true ->
   (exists c k, environ_key w = Some (c :: k)) \/
   (exists c k, api_key (sess w) = Some (c :: k)))
  /\ (no_credential w ->
      snd (setup_gemini_api configure w) = Ok false /\
      emits_at not_model_call
               (script_run json_loads client configure inp) w)
  /\ exists evs,
      out (fst (script_run json_loads client configure inp w)) = out w ++ evs
      /\ (Exists is_model_call evs -> Exists is_configure_nonempty evs).
Proof.
  split; [|split].
  - rewrite setup_gemini_api_result. unfold would_configure.
    destruct (resolve_key (environ_key w) (sess w)) as [|c k] eqn:E;
      [discriminate|].
    intros _. eapply resolve_key_nonempty; eauto.
  - intros Hno. split.
    + rewrite setup_gemini_api_result. unfold would_configure.
      now rewrite (no_credential_resolve Hno).
    + unfold script_run. apply emits_at_bind.
      * apply api_key_setup_no_call.
      * intros [] Ha. apply emits_at_bind.
        -- apply setup_no_call.
        -- intros ac Hac. rewrite setup_gemini_api_result in Hac.
           rewrite (api_key_setup_keyless configure inp Hno Ha) in Hac.
           injection Hac as <-.
           apply after_setup_unconfigured.
  - destruct (script_run_events json_loads client configure inp w)
      as (evs & E & [F|X]).
    + exists evs. split; [assumption|]. intros X.
      now apply not_model_call_not_exists in F.
    + exists evs. auto.
Qed.

Lemma c10_no_generation_without_key_witness :
  snd (setup_gemini_api Samples.configure_ok Samples.no_key_world) = Ok false /\
  emits_at not_model_call
    (script_run json_loads_ref (Samples.reply_with Samples.partial_reply)
       Samples.configure_ok (Samples.click_generate Samples.lisbon_request))
    Samples.no_key_world.
Proof.
  apply (@c10_no_generation_without_key json_loads_ref
           (Samples.reply_with Samples.partial_reply) Samples.configure_ok
           (Samples.click_generate Samples.lisbon_request)
           Samples.no_key_world).
  split; [right|left]; reflexivity.
Defined.

(* ================================================================== *)
(** ** The text export and the display *)
(* ================================================================== *)

(** *** The text export *)

Lemma occurs_prefix xs pre t :
  occurs_in_order xs t -> occurs_in_order xs (pre ++ t).
Proof.
  intros H. destruct H as [t|x xs p t H].
  - constructor.
  - rewrite app_assoc. now constructor.
Qed.

Lemma occurs_app xs ys s t :
  occurs_in_order xs s -> occurs_in_order ys t ->
  occurs_in_order (xs ++ ys) (s ++ t).
Proof.
  intros Hx Hy. induction Hx as [s|x xs p s Hx IH]; simpl.
  - now apply occurs_prefix.
  - rewrite <- !app_assoc. now constructor.
Qed.

Lemma occurs_suffix xs t suf :
  occurs_in_order xs t -> occurs_in_order xs (t ++ suf).
Proof.
  intros H. rewrite <- (app_nil_r xs). apply occurs_app; [assumption|constructor].
Qed.

Lemma text_activities_encoded acts : forall text,
  exists s,
    text_activities text (map activity_to_json acts) = Ok (text ++ s)
    /\ occurs_in_order (map a_activity acts) s.
Proof.
  induction acts as [|a acts IH]; intros text.
  - exists []. simpl. rewrite app_nil_r. split; [reflexivity|constructor].
  - cbn [map text_activities].
    change (getitem (activity_to_json a) (lit "time")) with (Ok (JStr (a_time a))).
    change (getitem (activity_to_json a) (lit "activity"))
      with (Ok (JStr (a_activity a))).
    change (getitem (activity_to_json a) (lit "description"))
      with (Ok (JStr (a_description a))).
    cbn [rbind py_str].
    match goal with
    | |- context [text_activities ?t _] => destruct (IH t) as (s & E & O)
    end.
    rewrite E.
    exists ((lit "  " ++ a_time a ++ lit " - ") ++ a_activity a ++
            (nl ++ lit "    " ++ a_description a ++ nl ++ s)).
    split.
    + f_equal. repeat rewrite <- app_assoc. reflexivity.
    + cbn [map]. constructor. repeat apply occurs_prefix. assumption.
Qed.

Lemma text_days_encoded days : forall text,
  exists s,
    text_days text (map day_to_json days) = Ok (text ++ s)
    /\ occurs_in_order
         (flat_map (fun d => d_title d :: map a_activity (d_activities d)) days)
         s.
Proof.
  induction days as [|d days IH]; intros text.
  - exists []. simpl. rewrite app_nil_r. split; [reflexivity|constructor].
  - cbn [map text_days].
    change (getitem (day_to_json d) (lit "day")) with (Ok (JNum (d_day d))).
    change (getitem (day_to_json d) (lit "title")) with (Ok (JStr (d_title d))).
    change (getitem (day_to_json d) (lit "estimated_cost"))
      with (Ok (JNum (d_estimated_cost d))).
    change (getitem (day_to_json d) (lit "activities"))
      with (Ok (JArr (map activity_to_json (d_activities d)))).
    cbn [rbind py_str py_iter py_repr].
    match goal with
    | |- context [text_activities ?t _] =>
        destruct (text_activities_encoded (d_activities d) t) as (sa & Ea & Oa)
    end.
    rewrite Ea. cbn [rbind].
    match goal with
    | |- context [text_days ?t _] => destruct (IH t) as (s & E & O)
    end.
    rewrite E.
    exists ((nl ++ lit "DAY " ++ str_of_Z (d_day d) ++ lit ": ") ++ d_title d ++
            ((nl ++ lit "Budget: $" ++ str_of_Z (d_estimated_cost d) ++ nl ++ nl
              ++ sa ++ nl) ++ s)).
    split.
    + f_equal. repeat rewrite <- app_assoc. reflexivity.
    + cbn [flat_map].
      change (d_title d :: map a_activity (d_activities d) ++ ?r)
        with ((d_title d :: map a_activity (d_activities d)) ++ r).
      constructor. apply occurs_app; [|assumption].
      do 5 apply occurs_prefix. now apply occurs_suffix.
Qed.

(** The text of a day does not depend on its meals. *)
Lemma text_days_without_meals days : forall text,
  text_days text (map day_to_json (map (with_meals []) days))
  = text_days text (map day_to_json days).
Proof.
  induction days as [|d days IH]; intros text; [reflexivity|].
  cbn [map text_days].
  change (getitem (day_to_json (with_meals [] d)) (lit "day"))
    with (getitem (day_to_json d) (lit "day")).
  change (getitem (day_to_json (with_meals [] d)) (lit "title"))
    with (getitem (day_to_json d) (lit "title")).
  change (getitem (day_to_json (with_meals [] d)) (lit "estimated_cost"))
    with (getitem (day_to_json d) (lit "estimated_cost")).
  change (getitem (day_to_json (with_meals [] d)) (lit "activities"))
    with (getitem (day_to_json d) (lit "activities")).
  change (getitem (day_to_json d) (lit "day")) with (Ok (JNum (d_day d))).
  change (getitem (day_to_json d) (lit "title")) with (Ok (JStr (d_title d))).
  change (getitem (day_to_json d) (lit "estimated_cost"))
    with (Ok (JNum (d_estimated_cost d))).
  change (getitem (day_to_json d) (lit "activities"))
    with (Ok (JArr (map activity_to_json (d_activities d)))).
  cbn [rbind py_iter].
  destruct (text_activities _ _); cbn [rbind]; [apply IH|reflexivity].
Qed.

Lemma to_text_without_meals it :
  to_text (itinerary_to_json (without_meals it))
  = to_text (itinerary_to_json it).
Proof.
  unfold to_text.
  change (getitem (itinerary_to_json (without_meals it)) (lit "destination"))
    with (Ok (JStr (i_destination it))).
  change (getitem (itinerary_to_json it) (lit "destination"))
    with (Ok (JStr (i_destination it))).
  change (getitem (itinerary_to_json (without_meals it)) (lit "overview"))
    with (Ok (JStr (i_overview it))).
  change (getitem (itinerary_to_json it) (lit "overview"))
    with (Ok (JStr (i_overview it))).
  change (getitem (itinerary_to_json (without_meals it))
                  (lit "total_estimated_cost"))
    with (Ok (JNum (i_total_estimated_cost it))).
  change (getitem (itinerary_to_json it) (lit "total_estimated_cost"))
    with (Ok (JNum (i_total_estimated_cost it))).
  change (getitem (itinerary_to_json (without_meals it))
                  (lit "daily_itineraries"))
    with (Ok (JArr (map day_to_json
                        (map (with_meals []) (i_daily_itineraries it))))).
  change (getitem (itinerary_to_json it) (lit "daily_itineraries"))
    with (Ok (JArr (map day_to_json (i_daily_itineraries it)))).
  cbn [rbind py_iter]. apply text_days_without_meals.
Qed.

(** C8.  For every itinerary the text export is produced; the day titles
    and activity names occur in it one after the other, day by day and,
    within a day, the title before the activities in their order; and
    the text is the same for every itinerary that differs only in the
    meals of its days, so no meal entry is in it. *)
Theorem c8_text_export_titles_activities_no_meals it :
  exists text,
    to_text (itinerary_to_json it) = Ok text
    /\ occurs_in_order (titles_and_activities it) text
    /\ forall it', same_but_meals it it' ->
                   to_text (itinerary_to_json it') = Ok text.
Proof.
  assert (H : exists text, to_text (itinerary_to_json it) = Ok text
                           /\ occurs_in_order (titles_and_activities it) text).
  { unfold to_text.
    change (getitem (itinerary_to_json it) (lit "destination"))
      with (Ok (JStr (i_destination it))).
    change (getitem (itinerary_to_json it) (lit "overview"))
      with (Ok (JStr (i_overview it))).
    change (getitem (itinerary_to_json it) (lit "total_estimated_cost"))
      with (Ok (JNum (i_total_estimated_cost it))).
    change (getitem (itinerary_to_json it) (lit "daily_itineraries"))
      with (Ok (JArr (map day_to_json (i_daily_itineraries it)))).
    cbn [rbind py_iter].
    match goal with
    | |- context [text_days ?t _] =>
        destruct (text_days_encoded (i_daily_itineraries it) t) as (s & E & O)
    end.
    rewrite E. eexists. split; [reflexivity|].
    now apply occurs_prefix. }
  destruct H as (text & E & O).
  exists text. repeat split; try assumption.
  intros it' Hsame. unfold same_but_meals in Hsame.
  now rewrite <- to_text_without_meals, <- Hsame, to_text_without_meals.
Qed.

(** *** The display *)

Lemma bind_lift_ok {A B} (a : A) (k : A -> M B) (w : world) :
  bind (lift (Ok a)) k w = k a w.
Proof. reflexivity. Qed.

Lemma bind_lift_raise {A B} (e : exn) (k : A -> M B) (w : world) :
  bind (lift (Raise e)) k w = (w, Raise e).
Proof. reflexivity. Qed.

Ltac run_steps :=
  repeat (first [ rewrite bind_lift_ok | rewrite bind_emit
                | progress cbn [fmt_f0 as_int py_iter py_len title
                                get_default dict_get st_columns] ]).

Lemma show_itinerary_emits data req nc :
  emits_only any_event (show_itinerary data req nc).
Proof.
  apply (emits_weaken (P:=not_model_call)); [intros; exact I|].
  apply show_itinerary_no_call.
Qed.

(** The display up to the per-person metric. *)
Lemma show_itinerary_metrics data req nc w d o t :
  getitem data (lit "destination") = Ok d ->
  getitem data (lit "overview") = Ok o ->
  getitem data (lit "total_estimated_cost") = Ok (JNum t) ->
  num_people req <> 0%Z ->
  exists rest,
    out (fst (show_itinerary data req nc w))
    = out w ++ [Heading (py_str d); InfoBox (py_str o); Columns 4;
                Metric TotalCost (with_commas t);
                Metric PerPerson
                  (fmt_money (inject_Z t / inject_Z (num_people req))%Q)]
            ++ rest.
Proof.
  intros Hd Ho Ht Hp. unfold show_itinerary.
  rewrite Hd, bind_lift_ok, bind_emit.
  rewrite Ho, bind_lift_ok, bind_emit.
  change (st_columns 4) with (emit (Columns 4)). rewrite bind_emit.
  rewrite Ht, bind_lift_ok.
  change (fmt_f0 true (JNum t)) with (Ok (with_commas t)).
  rewrite bind_lift_ok, bind_emit.
  assert (Hq : truediv (JNum t) (num_people req)
               = Ok (inject_Z t / inject_Z (num_people req))%Q).
  { unfold truediv. cbn [as_int].
    destruct (Z.eqb_spec (num_people req) 0); [contradiction|reflexivity]. }
  rewrite Hq, bind_lift_ok, bind_emit, !add_out_add_out.
  match goal with
  | |- exists rest, out (fst (?T ?W)) = _ =>
      assert (H : emits_only any_event T)
  end.
  { unfold show_list, show_day, show_activity, show_meal.
    repeat (first [ apply st_columns_emits; exact I
                  | apply emits_emit; exact I
                  | emits_step ]). }
  match goal with
  | |- exists rest, out (fst (?T ?W)) = _ => destruct (H W) as (rest & E & _)
  end.
  exists rest. rewrite E. cbn [add_out out app].
  now rewrite <- app_assoc.
Qed.

(** C4 (amended).  The session state holds the itinerary and no request.
    For every stored itinerary whose destination and overview are present
    and whose total is an integer below 2^48 in magnitude, and every
    current value of the people input within the input's bounds, the
    per-person metric drawn is the total divided by that current people
    value, rounded half to even to a whole number. *)
Theorem c4_per_person_uses_current_people inp ac w data d o t :
  itinerary (sess w) = Some data ->
  getitem data (lit "destination") = Ok d ->
  getitem data (lit "overview") = Ok o ->
  getitem data (lit "total_estimated_cost") = Ok (JNum t) ->
  exact_amount t ->
  (people_min <= num_people (form inp) <= people_max)%Z ->
  exists rest,
    out (fst (display inp ac w))
    = out w ++ [Heading (py_str d); InfoBox (py_str o); Columns 4;
                Metric TotalCost (with_commas t);
                Metric PerPerson
                  (fmt_money (inject_Z t / inject_Z (num_people (form inp)))%Q)]
            ++ rest.
Proof.
  intros Hs Hd Ho Ht _ Hp. unfold display, bind, get_session. cbn [fst snd].
  rewrite Hs. apply show_itinerary_metrics; try assumption.
  unfold people_min in Hp. lia.
Qed.

Lemma c4_per_person_uses_current_people_witness :
  let w := Samples.world_with Samples.lisbon_itinerary in
  exists rest,
    out (fst (display (Samples.no_click
                         (Samples.with_people 4 Samples.lisbon_request))
                      true w))
    = out w ++ [Heading (lit "Lisboa"); InfoBox (lit "City of seven hills.");
                Columns 4; Metric TotalCost (lit "1,500");
                Metric PerPerson (lit "375")]
            ++ rest.
Proof.
  apply (@c4_per_person_uses_current_people
           (Samples.no_click (Samples.with_people 4 Samples.lisbon_request))
           true (Samples.world_with Samples.lisbon_itinerary)
           (itinerary_to_json Samples.lisbon_itinerary)
           (JStr (lit "Lisboa")) (JStr (lit "City of seven hills.")) 1500%Z);
    try reflexivity.
  vm_compute. split; discriminate.
Defined.

(** C4 (as stated) fails.  An itinerary is generated for two people
    (per-person value 750); on the next run, with the people input moved
    to four and nothing clicked, the same stored itinerary is drawn with
    the per-person value 375, not the total divided by the two people of
    the request that produced it. *)
Lemma c4_counterexample :
  let reply := Samples.reply_with
                 (json_dumps (itinerary_to_json Samples.lisbon_itinerary)) in
  let w1 := fst (script_run json_loads_ref reply Samples.configure_ok
                   (Samples.click_generate Samples.lisbon_request)
                   Samples.fresh_world) in
  let w2 := fst (script_run json_loads_ref reply Samples.configure_ok
                   (Samples.no_click
                      (Samples.with_people 4 Samples.lisbon_request))
                   (Samples.next_run w1)) in
  num_people Samples.lisbon_request = 2%Z /\
  itinerary (sess w1)
  = Some (itinerary_to_json
            (with_destination (lit "Lisbon") Samples.lisbon_itinerary)) /\
  per_person_values (out w1) = [lit "750"] /\
  itinerary (sess w2) = itinerary (sess w1) /\
  per_person_values (out w2) = [lit "375"].
Proof. vm_compute. repeat split; reflexivity. Qed.

Lemma show_activities_ok acts : forall w,
  exists w', for_each (map activity_to_json acts) show_activity w = (w', Ok tt).
Proof.
  induction acts as [|a acts IH]; intros w; cbn [map for_each].
  - now exists w.
  - unfold show_activity at 1.
    change (getitem (activity_to_json a) (lit "time")) with (Ok (JStr (a_time a))).
    change (getitem (activity_to_json a) (lit "activity"))
      with (Ok (JStr (a_activity a))).
    change (getitem (activity_to_json a) (lit "description"))
      with (Ok (JStr (a_description a))).
    change (getitem (activity_to_json a) (lit "duration"))
      with (Ok (JStr (a_duration a))).
    change (getitem (activity_to_json a) (lit "cost")) with (Ok (JNum (a_cost a))).
    unfold bind at 1. run_steps. apply IH.
Qed.

(** Drawing a day that has no meals stops at the meal columns. *)
Lemma show_day_without_meals d w :
  d_meals d = [] ->
  exists w', show_day (day_to_json d) w = (w', Raise StreamlitAPIException).
Proof.
  intros Hm. unfold show_day.
  change (getitem (day_to_json d) (lit "day")) with (Ok (JNum (d_day d))).
  change (getitem (day_to_json d) (lit "title")) with (Ok (JStr (d_title d))).
  change (getitem (day_to_json d) (lit "estimated_cost"))
    with (Ok (JNum (d_estimated_cost d))).
  change (getitem (day_to_json d) (lit "activities"))
    with (Ok (JArr (map activity_to_json (d_activities d)))).
  change (getitem (day_to_json d) (lit "meals"))
    with (Ok (JArr (map meal_to_json (d_meals d)))).
  rewrite Hm. run_steps.
  unfold bind at 1.
  match goal with
  | |- context [for_each _ show_activity ?W] =>
      destruct (show_activities_ok (d_activities d) W) as (w' & E)
  end.
  rewrite E. cbn. now exists w'.
Qed.

Lemma show_meals_ok ms : forall start w,
  exists w', for_enumerate start (map meal_to_json ms) show_meal w = (w', Ok tt).
Proof.
  induction ms as [|m ms IH]; intros start w; cbn [map for_enumerate].
  - now exists w.
  - unfold show_meal at 1.
    change (getitem (meal_to_json m) (lit "meal"))
      with (Ok (JStr (meal_name (m_meal m)))).
    change (getitem (meal_to_json m) (lit "restaurant"))
      with (Ok (JStr (m_restaurant m))).
    change (getitem (meal_to_json m) (lit "cuisine"))
      with (Ok (JStr (m_cuisine m))).
    change (getitem (meal_to_json m) (lit "cost")) with (Ok (JNum (m_cost m))).
    unfold bind at 1. run_steps. apply IH.
Qed.

(** Drawing a day that has meals succeeds. *)
Lemma show_day_with_meals d w :
  d_meals d <> [] ->
  exists w', show_day (day_to_json d) w = (w', Ok tt).
Proof.
  intros Hm. unfold show_day.
  change (getitem (day_to_json d) (lit "day")) with (Ok (JNum (d_day d))).
  change (getitem (day_to_json d) (lit "title")) with (Ok (JStr (d_title d))).
  change (getitem (day_to_json d) (lit "estimated_cost"))
    with (Ok (JNum (d_estimated_cost d))).
  change (getitem (day_to_json d) (lit "activities"))
    with (Ok (JArr (map activity_to_json (d_activities d)))).
  change (getitem (day_to_json d) (lit "meals"))
    with (Ok (JArr (map meal_to_json (d_meals d)))).
  change (getitem (day_to_json d) (lit "travel_tips"))
    with (Ok (JStr (d_travel_tips d))).
  run_steps.
  unfold bind at 1.
  match goal with
  | |- context [for_each _ show_activity ?W] =>
      destruct (show_activities_ok (d_activities d) W) as (w1 & E1)
  end.
  rewrite E1. run_steps.
  destruct (d_meals d) as [|m ms] eqn:Em; [congruence|].
  rewrite length_map. cbn [List.length st_columns].
  run_steps.
  unfold bind at 1.
  match goal with
  | |- context [for_enumerate 0 _ show_meal ?W] =>
      destruct (show_meals_ok (m :: ms) 0 W) as (w2 & E2)
  end.
  rewrite E2. rewrite bind_lift_ok. unfold emit. eexists. reflexivity.
Qed.

(** The loop over the days stops at the first day without meals. *)
Lemma show_days_stop days : forall w,
  (exists d, In d days /\ d_meals d = []) ->
  exists w', for_each (map day_to_json days) show_day w
             = (w', Raise StreamlitAPIException).
Proof.
  induction days as [|d days IH]; intros w (d0 & Hin & Hm).
  - destruct Hin.
  - cbn [map for_each]. unfold bind.
    destruct (d_meals d) as [|m ms] eqn:Em.
    + destruct (show_day_without_meals d w Em) as (w' & E).
      rewrite E. now exists w'.
    + assert (Hne : d_meals d <> []) by (rewrite Em; discriminate).
      destruct (show_day_with_meals d w Hne) as (w' & E).
      rewrite E. apply IH. exists d0. split; [|assumption].
      destruct Hin as [->|Hin]; [congruence|assumption].
Qed.

(** C5 (the code departs from it).  For every stored itinerary with a
    day whose meal list is empty, and a people count other than zero,
    drawing the itinerary ends in [StreamlitAPIException]: the column
    count handed to [st.columns] is zero. *)
Theorem c5_empty_meals_stop_the_display it req nc w :
  (exists d, In d (i_daily_itineraries it) /\ d_meals d = []) ->
  num_people req <> 0%Z ->
  snd (show_itinerary (itinerary_to_json it) req nc w)
  = Raise StreamlitAPIException.
Proof.
  intros Hd Hp. unfold show_itinerary.
  change (getitem (itinerary_to_json it) (lit "destination"))
    with (Ok (JStr (i_destination it))).
  change (getitem (itinerary_to_json it) (lit "overview"))
    with (Ok (JStr (i_overview it))).
  change (getitem (itinerary_to_json it) (lit "total_estimated_cost"))
    with (Ok (JNum (i_total_estimated_cost it))).
  change (getitem (itinerary_to_json it) (lit "daily_itineraries"))
    with (Ok (JArr (map day_to_json (i_daily_itineraries it)))).
  change (get_default (itinerary_to_json it) (lit "famous_attractions") (JArr []))
    with (Ok (JArr (map JStr (i_famous_attractions it)))).
  run_steps.
  unfold truediv. cbn [as_int].
  destruct (Z.eqb_spec (num_people req) 0); [contradiction|].
  run_steps.
  unfold bind at 1.
  match goal with
  | |- context [for_each _ show_day ?W] =>
      destruct (show_days_stop (i_daily_itineraries it) W Hd) as (w' & E)
  end.
  rewrite E. reflexivity.
Qed.

Lemma c5_empty_meals_stop_the_display_witness :
  snd (show_itinerary (itinerary_to_json Samples.two_day_itinerary)
         Samples.lisbon_request false
         (Samples.world_with Samples.two_day_itinerary))
  = Raise StreamlitAPIException.
Proof.
  apply (@c5_empty_meals_stop_the_display Samples.two_day_itinerary
           Samples.lisbon_request false
           (Samples.world_with Samples.two_day_itinerary)).
  - exists Samples.belem_day. split; [right; left; reflexivity|reflexivity].
  - discriminate.
Defined.

(** C6 (amended).  The per-person division has no guard.  For every
    people value within the bounds of the people input it is defined and
    is the exact quotient, and drawing an itinerary never ends in a
    division by zero. *)
Theorem c6_division_defined_within_bounds data req nc w :
  (people_min <= num_people req <= people_max)%Z ->
  snd (show_itinerary data req nc w) <> Raise ZeroDivisionError
  /\ forall total t,
       as_int total = Some t ->
       truediv total (num_people req)
       = Ok (inject_Z t / inject_Z (num_people req))%Q.
Proof.
  intros Hp. unfold people_min in Hp.
  assert (Hne : num_people req <> 0%Z) by lia.
  split.
  - pose proof (@show_itinerary_no_zd data req nc Hne w) as H.
    intros E. rewrite E in H. now apply H.
  - intros total t Ht. unfold truediv. rewrite Ht.
    destruct (Z.eqb_spec (num_people req) 0); [contradiction|reflexivity].
Qed.

Lemma c6_division_defined_within_bounds_witness :
  snd (show_itinerary (itinerary_to_json Samples.lisbon_itinerary)
         Samples.lisbon_request false
         (Samples.world_with Samples.lisbon_itinerary))
  <> Raise ZeroDivisionError
  /\ forall total t,
       as_int total = Some t ->
       truediv total 2 = Ok (inject_Z t / inject_Z 2)%Q.
Proof.
  apply (@c6_division_defined_within_bounds
           (itinerary_to_json Samples.lisbon_itinerary)
           Samples.lisbon_request false
           (Samples.world_with Samples.lisbon_itinerary)).
  vm_compute. split; discriminate.
Defined.

(** C6 (as stated) fails.  With a people value of zero, drawing the
    stored itinerary ends in [ZeroDivisionError], after the total cost
    metric and before any per-person metric. *)
Lemma c6_counterexample :
  let w := Samples.world_with Samples.lisbon_itinerary in
  let r := show_itinerary (itinerary_to_json Samples.lisbon_itinerary)
             (Samples.with_people 0 Samples.lisbon_request) false w in
  snd r = Raise ZeroDivisionError /\
  out (fst r) = [Heading (lit "Lisboa"); InfoBox (lit "City of seven hills.");
                 Columns 4; Metric TotalCost (lit "1,500")] /\
  per_person_values (out (fst r)) = [].
Proof. vm_compute. repeat split; reflexivity. Qed.

(* ================================================================== *)
(** ** Further properties of the script *)
(* ================================================================== *)

(** *** The cleaning of the response never fails *)

Lemma split_go_nonempty sep s : forall k cur,
  exists x l, split_go sep k cur s = x :: l.
Proof.
  induction s as [|c s IH]; intros k cur; cbn [split_go].
  - eauto.
  - destruct k; [|apply IH].
    destruct (starts_with sep (c :: s)); [eauto|apply IH].
Qed.

Lemma split_go_two sep s : forall cur,
  sep <> [] -> contains sep s = true ->
  exists x y l, split_go sep 0 cur s = x :: y :: l.
Proof.
  induction s as [|c s IH]; intros cur Hsep H.
  - destruct sep; [congruence|discriminate].
  - cbn [split_go]. cbn [contains] in H.
    destruct (starts_with sep (c :: s)).
    + destruct (split_go_nonempty sep s (pred (List.length sep)) [])
        as (y & l & E).
      rewrite E. eauto.
    + apply IH; assumption.
Qed.

Lemma index_first_of_split sep s : exists x, index (split sep s) 0 = Ok x.
Proof.
  unfold split. destruct (split_go_nonempty sep s 0 []) as (x & l & E).
  rewrite E. now exists x.
Qed.

Lemma index_second_of_split sep s :
  sep <> [] -> contains sep s = true ->
  exists y, index (split sep s) 1 = Ok y.
Proof.
  intros Hsep H. unfold split.
  destruct (@split_go_two sep s [] Hsep H) as (x & y & l & E).
  rewrite E. now exists y.
Qed.

(** X1.  The cleaning of a response never raises, whatever the text: the
    membership test guards both indexings of the split.  What it returns
    has no white space at either end. *)
Theorem clean_response_total raw :
  exists text, clean_response raw = Ok text /\ strip text = text.
Proof.
  unfold clean_response.
  destruct (contains fence_json (strip raw)) eqn:Ej.
  - destruct (@index_second_of_split fence_json (strip raw)) as (a & Ea);
      [discriminate|assumption|].
    destruct (index_first_of_split fence a) as (b & Eb).
    rewrite Ea. cbn [rbind]. rewrite Eb. cbn [rbind].
    eexists. split; [reflexivity|apply strip_idem].
  - destruct (contains fence (strip raw)) eqn:Ef.
    + destruct (@index_second_of_split fence (strip raw)) as (a & Ea);
        [discriminate|assumption|].
      destruct (index_first_of_split fence a) as (b & Eb).
      rewrite Ea. cbn [rbind]. rewrite Eb. cbn [rbind].
      eexists. split; [reflexivity|apply strip_idem].
    + eexists. split; [reflexivity|apply strip_idem].
Qed.

(** *** One call, a bounded snippet *)

(** The shapes a run of [generate_itinerary_with_gemini] can take. *)
Lemma generate_shape json_loads client req w :
  exists evs r,
    generate_itinerary_with_gemini json_loads client req w
    = (add_out (GenerateContent req :: evs) w, Ok r)
    /\ Forall not_model_call evs
    /\ Forall (fun s => List.length s <= 500) (debug_snippets evs).
Proof.
  unfold generate_itinerary_with_gemini. rewrite bind_emit.
  destruct (client req) as [raw|msg].
  - destruct (clean_response raw) as [text|e].
    + destruct (json_loads text) as [parsed|].
      * destruct (setitem parsed (lit "destination") (JStr (destination req))).
        -- exists [], (Some a). repeat split; constructor.
        -- exists [AiError e], None. rewrite bind_emit, add_out_add_out.
           repeat split; repeat constructor. intros [].
      * exists [StError (lit "Failed to parse AI response. Please try again.");
                DebugInfo (slice_to 500 text)], None.
        rewrite !bind_emit, !add_out_add_out.
        split; [reflexivity|]. split.
        -- repeat constructor; intros [].
        -- unfold debug_snippets, slice_to. cbn [flat_map app].
           constructor; [apply firstn_le_length|constructor].
    + exists [AiError e], None. rewrite bind_emit, add_out_add_out.
      repeat split; repeat constructor. intros [].
  - exists [AiError (ClientError msg)], None.
    rewrite bind_emit, add_out_add_out.
    repeat split; repeat constructor. intros [].
Qed.

(** X2.  When the cleaned text does not parse, the attempt shows the
    parse error and a debug snippet and returns [None]; the snippet is
    the start of the cleaned text and has at most 500 characters. *)
Theorem parse_failure_snippet_bounded json_loads client req w raw text :
  client req = ReplyText raw ->
  clean_response raw = Ok text ->
  json_loads text = None ->
  generate_itinerary_with_gemini json_loads client req w
  = (add_out [GenerateContent req;
              StError (lit "Failed to parse AI response. Please try again.");
              DebugInfo (slice_to 500 text)] w, Ok None)
  /\ List.length (slice_to 500 text) <= 500
  /\ exists rest, text = slice_to 500 text ++ rest.
Proof.
  intros Hc Hclean Hload. split; [|split].
  - unfold generate_itinerary_with_gemini.
    rewrite bind_emit, Hc, Hclean, Hload, !bind_emit, !add_out_add_out.
    reflexivity.
  - apply firstn_le_length.
  - exists (skipn 500 text). unfold slice_to. now rewrite firstn_skipn.
Qed.

Lemma parse_failure_snippet_bounded_witness :
  let raw := lit "{" ++ repeat_char "x"%char 600 in
  generate_itinerary_with_gemini json_loads_ref (Samples.reply_with raw)
    Samples.lisbon_request Samples.fresh_world
  = (add_out [GenerateContent Samples.lisbon_request;
              StError (lit "Failed to parse AI response. Please try again.");
              DebugInfo (slice_to 500 raw)] Samples.fresh_world, Ok None)
  /\ List.length (slice_to 500 raw) <= 500
  /\ exists rest, raw = slice_to 500 raw ++ rest.
Proof.
  apply (@parse_failure_snippet_bounded json_loads_ref
           (Samples.reply_with (lit "{" ++ repeat_char "x"%char 600))
           Samples.lisbon_request Samples.fresh_world
           (lit "{" ++ repeat_char "x"%char 600)
           (lit "{" ++ repeat_char "x"%char 600));
    vm_compute; reflexivity.
Defined.

Lemma model_calls_app a b : model_calls (a ++ b) = model_calls a + model_calls b.
Proof. unfold model_calls. now rewrite filter_app, length_app. Qed.

Lemma model_calls_none evs : Forall not_model_call evs -> model_calls evs = 0.
Proof.
  induction 1 as [|e evs He _ IH]; [reflexivity|].
  unfold model_calls in *. cbn [filter].
  destruct e; try exact IH. exfalso. apply He. exact I.
Qed.

(** A valid submission: the progress lines, the call, the result. *)
Lemma on_generate_valid json_loads client req w :
  destination req <> [] ->
  interests req <> [] ->
  on_generate json_loads client req w
  = bind (generate_itinerary_with_gemini json_loads client req) store_result
         (add_out progress_events w).
Proof.
  intros Hd Hi. unfold on_generate.
  destruct (destination req) as [|c d]; [congruence|].
  destruct (interests req) as [|i rest]; [congruence|].
  rewrite !bind_emit, !add_out_add_out. reflexivity.
Qed.

(** An invalid submission: one message. *)
Lemma on_generate_invalid json_loads client req w :
  destination req = [] \/ interests req = [] ->
  exists msg,
    on_generate json_loads client req w = (add_out [StError msg] w, Ok tt).
Proof.
  intros H. unfold on_generate. destruct H as [H|H].
  - rewrite H. eexists. reflexivity.
  - destruct (destination req); [|rewrite H]; eexists; reflexivity.
Qed.

Lemma store_result_events it w :
  exists tail,
    out (fst (store_result it w)) = out w ++ tail /\ model_calls tail = 0.
Proof.
  destruct it as [v|]; cbn [store_result]; [destruct (truthy v)|].
  - eexists [_; _].
    cbv beta iota delta [bind get_session put_session emit fst snd].
    cbn [out]. rewrite <- !app_assoc. split; reflexivity.
  - eexists [_]. split; reflexivity.
  - eexists [_]. split; reflexivity.
Qed.

Lemma on_generate_valid_calls json_loads client req w :
  destination req <> [] ->
  interests req <> [] ->
  exists evs,
    out (fst (on_generate json_loads client req w)) = out w ++ evs
    /\ model_calls evs = 1.
Proof.
  intros Hd Hi. rewrite on_generate_valid by assumption.
  destruct (generate_shape json_loads client req (add_out progress_events w))
    as (evs & r & E & F & _).
  unfold bind. rewrite E.
  destruct (store_result_events r
              (add_out (GenerateContent req :: evs) (add_out progress_events w)))
    as (tail & Et & Ht).
  exists (progress_events ++ (GenerateContent req :: evs) ++ tail).
  rewrite Et. cbn [out add_out]. rewrite <- !app_assoc.
  split; [reflexivity|].
  rewrite !model_calls_app, Ht.
  change (GenerateContent req :: evs) with ([GenerateContent req] ++ evs).
  rewrite model_calls_app, (model_calls_none F). reflexivity.
Qed.

(** X3.  A submission with a destination and an interest calls the model
    exactly once, whatever the reply is: a failed call, an unreadable
    reply and a rejected value are not retried. *)
Theorem valid_attempt_calls_model_once json_loads client req w :
  destination req <> [] ->
  interests req <> [] ->
  exists evs,
    out (fst (on_generate json_loads client req w)) = out w ++ evs
    /\ model_calls evs = 1.
Proof.
  intros Hd Hi. rewrite on_generate_valid by assumption.
  destruct (generate_shape json_loads client req (add_out progress_events w))
    as (evs & r & E & F & _).
  unfold bind. rewrite E.
  destruct (store_result_events r
              (add_out (GenerateContent req :: evs) (add_out progress_events w)))
    as (tail & Et & Ht).
  exists (progress_events ++ (GenerateContent req :: evs) ++ tail).
  rewrite Et. cbn [out add_out]. rewrite <- !app_assoc.
  split; [reflexivity|].
  rewrite !model_calls_app, Ht.
  change (GenerateContent req :: evs) with ([GenerateContent req] ++ evs).
  rewrite model_calls_app, (model_calls_none F). reflexivity.
Qed.

Lemma valid_attempt_calls_model_once_witness :
  exists evs,
    out (fst (on_generate json_loads_ref Samples.reply_error
                Samples.lisbon_request Samples.fresh_world))
    = out Samples.fresh_world ++ evs
    /\ model_calls evs = 1.
Proof.
  apply (@valid_attempt_calls_model_once json_loads_ref Samples.reply_error
           Samples.lisbon_request Samples.fresh_world); discriminate.
Defined.

Lemma dict_set_nonempty k v d : dict_set k v d <> [].
Proof.
  destruct d as [|[k' v'] d]; simpl; [discriminate|].
  destruct (str_eqb k' k); discriminate.
Qed.

(** X4.  When the reply parses to an object, a valid submission stores
    it, with the requested destination, as the session's itinerary; the
    saved API key and the environment stay; the status ends complete. *)
Theorem successful_generation_stores_itinerary
        json_loads client req w raw text d :
  destination req <> [] ->
  interests req <> [] ->
  client req = ReplyText raw ->
  clean_response raw = Ok text ->
  json_loads text = Some (JObj d) ->
  on_generate json_loads client req w
  = ({| environ_key := environ_key w;
        sess := {| api_key := api_key (sess w);
                   itinerary :=
                     Some (JObj (dict_set (lit "destination")
                                          (JStr (destination req)) d)) |};
        out := out w ++ progress_events ++
               [GenerateContent req;
                StatusUpdate (lit "AI has created your perfect itinerary!")
                             Complete;
                Balloons] |}, Ok tt).
Proof.
  intros Hd Hi Hc Hclean Hload.
  rewrite on_generate_valid by assumption.
  unfold bind at 1.
  rewrite (@generate_parsed _ _ _ _ _ _ _ Hc Hclean Hload).
  cbn [setitem store_result truthy].
  destruct (dict_set (lit "destination") (JStr (destination req)) d) eqn:E;
    [now apply dict_set_nonempty in E|].
  cbv beta iota delta [bind get_session put_session emit fst snd].
  cbn [sess environ_key out add_out api_key].
  now rewrite <- !app_assoc.
Qed.

Lemma successful_generation_stores_itinerary_witness :
  on_generate json_loads_ref (Samples.reply_with Samples.partial_reply)
    Samples.lisbon_request Samples.fresh_world
  = ({| environ_key := None;
        sess := {| api_key := Some (lit "key");
                   itinerary :=
                     Some (JObj [(lit "overview", JStr (lit "x"));
                                 (lit "total_estimated_cost", JStr (lit "1500"));
                                 (lit "destination", JStr (lit "Lisbon"))]) |};
        out := progress_events ++
               [GenerateContent Samples.lisbon_request;
                StatusUpdate (lit "AI has created your perfect itinerary!")
                             Complete;
                Balloons] |}, Ok tt).
Proof.
  apply (@successful_generation_stores_itinerary json_loads_ref
           (Samples.reply_with Samples.partial_reply)
           Samples.lisbon_request Samples.fresh_world
           Samples.partial_reply Samples.partial_reply
           [(lit "overview", JStr (lit "x"));
            (lit "total_estimated_cost", JStr (lit "1500"))]);
    try discriminate; vm_compute; reflexivity.
Defined.

(** *** At most one call in a run *)

Lemma calls_none {A} (m : M A) :
  emits_only not_model_call m -> calls_at_most 0 m.
Proof.
  intros H w. destruct (H w) as (evs & E & F).
  exists evs. split; [assumption|]. now rewrite (model_calls_none F).
Qed.

Lemma calls_bind {A B} a b (m : M A) (k : A -> M B) :
  calls_at_most a m -> (forall x, calls_at_most b (k x)) ->
  calls_at_most (a + b) (bind m k).
Proof.
  intros Hm Hk w. unfold bind.
  destruct (Hm w) as (evs & E1 & L1).
  destruct (m w) as [w' [x|e]]; cbn [fst] in *.
  - destruct (Hk x w') as (evs' & E2 & L2).
    exists (evs ++ evs'). rewrite E2, E1, app_assoc, model_calls_app.
    split; [reflexivity|lia].
  - exists evs. split; [assumption|lia].
Qed.

Lemma on_generate_calls json_loads client req :
  calls_at_most 1 (on_generate json_loads client req).
Proof.
  intros w.
  destruct (destination req) as [|c d] eqn:Ed.
  - destruct (@on_generate_invalid json_loads client req w)
      as (msg & E); [now left|].
    rewrite E. exists [StError msg]. split; [reflexivity|].
    cbn. lia.
  - destruct (interests req) as [|i rest] eqn:Ei.
    + destruct (@on_generate_invalid json_loads client req w)
        as (msg & E); [now right|].
      rewrite E. exists [StError msg]. split; [reflexivity|]. cbn. lia.
    + destruct (@on_generate_valid_calls json_loads client req w)
        as (evs & E & L); [rewrite Ed; discriminate|rewrite Ei; discriminate|].
      exists evs. split; [assumption|lia].
Qed.

(** X5.  A run of the script calls the model at most once. *)
Theorem script_run_calls_at_most_once json_loads client configure inp :
  calls_at_most 1 (script_run json_loads client configure inp).
Proof.
  unfold script_run.
  apply (calls_bind (a:=0) (b:=1)).
  { apply calls_none, api_key_setup_no_call. }
  intros _. apply (calls_bind (a:=0) (b:=1)).
  { apply calls_none, setup_no_call. }
  intros ac. unfold after_setup.
  apply (calls_bind (a:=0) (b:=1)).
  { apply calls_none. destruct ac; [apply emits_ret|].
    apply emits_emit. intros []. }
  intros _. apply (calls_bind (a:=1) (b:=0)).
  { destruct (generate_clicked inp && ac).
    - apply on_generate_calls.
    - intros w. exists []. cbn. rewrite app_nil_r. split; [reflexivity|lia]. }
  intros _. apply (calls_bind (a:=0) (b:=0)).
  { apply calls_none, display_no_call. }
  intros _. apply calls_none. unfold footer. apply emits_raise.
Qed.

(** *** What the display leaves alone *)

Lemma keeps_ret {A} (a : A) : keeps_state (ret a).
Proof. intros w. split; reflexivity. Qed.

Lemma keeps_raise {A} (e : exn) : keeps_state (@raise A e).
Proof. intros w. split; reflexivity. Qed.

Lemma keeps_lift {A} (r : res A) : keeps_state (lift r).
Proof. intros w. split; reflexivity. Qed.

Lemma keeps_emit (e : event) : keeps_state (emit e).
Proof. intros w. split; reflexivity. Qed.

Lemma keeps_get_session : keeps_state get_session.
Proof. intros w. split; reflexivity. Qed.

Lemma keeps_bind {A B} (m : M A) (k : A -> M B) :
  keeps_state m -> (forall a, keeps_state (k a)) -> keeps_state (bind m k).
Proof.
  intros Hm Hk w. unfold bind. destruct (Hm w) as [E1 S1].
  destruct (m w) as [w' [a|e]]; cbn [fst] in *.
  - destruct (Hk a w') as [E2 S2]. split; congruence.
  - split; assumption.
Qed.

Lemma keeps_for_each {A} (l : list A) (body : A -> M unit) :
  (forall x, keeps_state (body x)) -> keeps_state (for_each l body).
Proof.
  intros H. induction l as [|x l IH]; cbn [for_each].
  - apply keeps_ret.
  - apply keeps_bind; auto.
Qed.

Lemma keeps_for_enumerate {A} (l : list A) (body : nat -> A -> M unit) :
  (forall i x, keeps_state (body i x)) ->
  forall start, keeps_state (for_enumerate start l body).
Proof.
  intros H. induction l as [|x l IH]; intros start; cbn [for_enumerate].
  - apply keeps_ret.
  - apply keeps_bind; auto.
Qed.

Lemma keeps_st_columns n : keeps_state (st_columns n).
Proof. destruct n; [apply keeps_raise|apply keeps_emit]. Qed.

Ltac keeps_step :=
  match goal with
  | |- keeps_state (bind _ _) => apply keeps_bind; [|intros ?]
  | |- keeps_state (ret _) => apply keeps_ret
  | |- keeps_state (emit _) => apply keeps_emit
  | |- keeps_state (lift _) => apply keeps_lift
  | |- keeps_state (raise _) => apply keeps_raise
  | |- keeps_state (st_columns _) => apply keeps_st_columns
  | |- keeps_state (for_each _ _) => apply keeps_for_each; intros ?
  | |- keeps_state (for_enumerate _ _ _) =>
      apply keeps_for_enumerate; intros ? ?
  | |- keeps_state get_session => apply keeps_get_session
  end.

Lemma show_itinerary_keeps data req :
  keeps_state (show_itinerary data req false).
Proof.
  unfold show_itinerary, show_list, show_day, show_activity, show_meal.
  repeat keeps_step.
Qed.

(** X6.  Unless the "Generate New" button was clicked, drawing the
    stored value, whatever it is and however the drawing ends, changes
    neither the session nor the environment. *)
Theorem display_keeps_state inp ac w :
  new_clicked inp = false ->
  sess (fst (display inp ac w)) = sess w
  /\ environ_key (fst (display inp ac w)) = environ_key w.
Proof.
  intros Hn. unfold display, bind, get_session. cbn [fst snd].
  destruct (itinerary (sess w)) as [data|].
  - rewrite Hn. destruct (show_itinerary_keeps data (form inp) w); auto.
  - split; reflexivity.
Qed.

Lemma display_keeps_state_witness :
  let w := Samples.world_with Samples.two_day_itinerary in
  let inp := Samples.no_click Samples.lisbon_request in
  sess (fst (display inp true w)) = sess w
  /\ environ_key (fst (display inp true w)) = environ_key w.
Proof.
  apply (@display_keeps_state (Samples.no_click Samples.lisbon_request) true
           (Samples.world_with Samples.two_day_itinerary)).
  reflexivity.
Defined.

(** *** What a complete drawing needs *)

Lemma bind_ok_inv {A B} (m : M A) (k : A -> M B) w b :
  snd (bind m k w) = Ok b ->
  exists a, snd (m w) = Ok a /\ snd (k a (fst (m w))) = Ok b.
Proof.
  unfold bind. destruct (m w) as [w' [a|e]]; cbn [fst snd].
  - eauto.
  - discriminate.
Qed.

Lemma show_list_ok_inv data sec key w :
  snd (show_list data sec key w) = Ok tt ->
  exists v, getitem data key = Ok v.
Proof.
  unfold show_list. intros H.
  apply bind_ok_inv in H as (v & Hv & _). cbn in Hv. eauto.
Qed.

(** X7.  If the drawing of the stored value runs to its end, then the
    value had every key the display reads, the people count was not
    zero, and the "Generate New" button was not clicked. *)
Theorem complete_display_needs_all_keys data req nc w :
  snd (show_itinerary data req nc w) = Ok tt ->
  Forall (fun k => exists v, getitem data k = Ok v) displayed_keys
  /\ num_people req <> 0%Z
  /\ nc = false.
Proof.
  unfold show_itinerary. intros H.
  apply bind_ok_inv in H as (d & Hd & H). cbn [lift fst snd] in Hd, H.
  apply bind_ok_inv in H as ([] & _ & H).
  apply bind_ok_inv in H as (o & Ho & H). cbn [lift fst snd] in Ho.
  apply bind_ok_inv in H as ([] & _ & H).
  apply bind_ok_inv in H as ([] & _ & H).
  apply bind_ok_inv in H as (total & Ht & H). cbn [lift fst snd] in Ht.
  apply bind_ok_inv in H as (t & _ & H).
  apply bind_ok_inv in H as ([] & _ & H).
  apply bind_ok_inv in H as (q & Hq & H). cbn [lift fst snd] in Hq.
  apply bind_ok_inv in H as ([] & _ & H).
  apply bind_ok_inv in H as ([] & _ & H).
  apply bind_ok_inv in H as (fa & _ & H).
  apply bind_ok_inv in H as (k & _ & H).
  apply bind_ok_inv in H as ([] & _ & H).
  apply bind_ok_inv in H as (days_v & Hdays & H). cbn [lift fst snd] in Hdays.
  apply bind_ok_inv in H as (days & _ & H).
  apply bind_ok_inv in H as ([] & _ & H).
  apply bind_ok_inv in H as ([] & _ & H).
  apply bind_ok_inv in H as ([] & H1 & H). apply show_list_ok_inv in H1.
  apply bind_ok_inv in H as ([] & H2 & H). apply show_list_ok_inv in H2.
  apply bind_ok_inv in H as ([] & H3 & H). apply show_list_ok_inv in H3.
  apply bind_ok_inv in H as ([] & H4 & H). apply show_list_ok_inv in H4.
  apply bind_ok_inv in H as ([] & _ & H).
  apply bind_ok_inv in H as ([] & _ & H).
  apply bind_ok_inv in H as (text & _ & H).
  apply bind_ok_inv in H as ([] & _ & H).
  split; [|split].
  - unfold displayed_keys. repeat constructor; eauto.
  - intros Hz. unfold truediv in Hq. rewrite Hz in Hq.
    destruct (as_int total); discriminate.
  - destruct nc; [|reflexivity].
    apply bind_ok_inv in H as (ss & _ & H).
    apply bind_ok_inv in H as ([] & _ & H). discriminate.
Qed.

Lemma complete_display_needs_all_keys_witness :
  Forall (fun k => exists v,
            getitem (itinerary_to_json Samples.lisbon_itinerary) k = Ok v)
         displayed_keys
  /\ num_people Samples.lisbon_request <> 0%Z
  /\ false = false.
Proof.
  apply (@complete_display_needs_all_keys
           (itinerary_to_json Samples.lisbon_itinerary)
           Samples.lisbon_request false
           (Samples.world_with Samples.lisbon_itinerary)).
  vm_compute. reflexivity.
Defined.

(** *** The drawing of a well-formed itinerary *)

Lemma add_out_eq w w' evs :
  environ_key w' = environ_key w -> sess w' = sess w ->
  out w' = out w ++ evs -> w' = add_out evs w.
Proof.
  destruct w', w. unfold add_out. cbn. intros -> -> ->. reflexivity.
Qed.

Lemma run_ok_add_out (m : M unit) w :
  keeps_state m -> emits_only any_event m ->
  snd (m w) = Ok tt ->
  exists evs, m w = (add_out evs w, Ok tt).
Proof.
  intros K E H. destruct (K w) as [Ke Ks]. destruct (E w) as (evs & Eo & _).
  exists evs. destruct (m w) as [w' r]. cbn [fst snd] in *.
  subst r. f_equal. now apply add_out_eq.
Qed.

Lemma show_days_ok days : forall w,
  Forall (fun d => d_meals d <> []) days ->
  exists w', for_each (map day_to_json days) show_day w = (w', Ok tt).
Proof.
  induction days as [|d days IH]; intros w H; cbn [map for_each].
  - now exists w.
  - inversion H as [|? ? Hd Hrest]; subst.
    destruct (show_day_with_meals d w Hd) as (w1 & E1).
    unfold bind. rewrite E1. now apply IH.
Qed.

Lemma show_days_run days w :
  Forall (fun d => d_meals d <> []) days ->
  exists evs, for_each (map day_to_json days) show_day w = (add_out evs w, Ok tt).
Proof.
  intros H. apply run_ok_add_out.
  - apply keeps_for_each. intros x.
    unfold show_day, show_activity, show_meal. repeat keeps_step.
  - apply emits_for_each. intros x.
    unfold show_day, show_activity, show_meal.
    repeat (first [ apply st_columns_emits; exact I
                  | apply emits_emit; exact I | emits_step ]).
  - destruct (@show_days_ok days w H) as (w' & E). now rewrite E.
Qed.

Lemma numbered_run sec (l : list str) : forall start w,
  exists evs,
    for_enumerate start (map JStr l)
      (fun i x => emit (Numbered sec i (py_str x))) w
    = (add_out evs w, Ok tt).
Proof.
  induction l as [|x l IH]; intros start w; cbn [map for_enumerate].
  - exists []. unfold ret, add_out. destruct w. cbn. now rewrite app_nil_r.
  - rewrite bind_emit.
    destruct (IH (S start) (add_out [Numbered sec start (py_str (JStr x))] w))
      as (evs & E).
    rewrite E, add_out_add_out. eauto.
Qed.

Lemma show_list_run data sec key l w :
  getitem data key = Ok (JArr (map JStr l)) ->
  exists evs, show_list data sec key w = (add_out evs w, Ok tt).
Proof.
  intros H. unfold show_list. rewrite H. run_steps. apply numbered_run.
Qed.

Lemma to_text_ok it : exists text, to_text (itinerary_to_json it) = Ok text.
Proof.
  unfold to_text.
  change (getitem (itinerary_to_json it) (lit "destination"))
    with (Ok (JStr (i_destination it))).
  change (getitem (itinerary_to_json it) (lit "overview"))
    with (Ok (JStr (i_overview it))).
  change (getitem (itinerary_to_json it) (lit "total_estimated_cost"))
    with (Ok (JNum (i_total_estimated_cost it))).
  change (getitem (itinerary_to_json it) (lit "daily_itineraries"))
    with (Ok (JArr (map day_to_json (i_daily_itineraries it)))).
  cbn [rbind py_iter].
  match goal with
  | |- context [text_days ?t _] =>
      destruct (text_days_encoded (i_daily_itineraries it) t) as (s & E & _)
  end.
  rewrite E. eauto.
Qed.

(** How the drawing of a well-formed itinerary ends. *)
Lemma show_itinerary_run it req nc w :
  every_day_has_meals it ->
  num_people req <> 0%Z ->
  exists evs text,
    to_text (itinerary_to_json it) = Ok text /\
    show_itinerary (itinerary_to_json it) req nc w
    = if nc
      then ({| environ_key := environ_key w;
               sess := {| api_key := api_key (sess w); itinerary := None |};
               out := out w ++ evs ++
                      [Columns 3;
                       DownloadJson (itinerary_to_json it)
                         (export_filename (destination req) (lit ".json"));
                       DownloadTxt text
                         (export_filename (destination req) (lit ".txt"))] |},
            Raise RerunException)
      else (add_out (evs ++
                     [Columns 3;
                      DownloadJson (itinerary_to_json it)
                        (export_filename (destination req) (lit ".json"));
                      DownloadTxt text
                        (export_filename (destination req) (lit ".txt"))]) w,
            Ok tt).
Proof.
  intros Hm Hp.
  destruct (to_text_ok it) as (text & Et).
  unfold show_itinerary. rewrite Et.
  change (getitem (itinerary_to_json it) (lit "destination"))
    with (Ok (JStr (i_destination it))).
  change (getitem (itinerary_to_json it) (lit "overview"))
    with (Ok (JStr (i_overview it))).
  change (getitem (itinerary_to_json it) (lit "total_estimated_cost"))
    with (Ok (JNum (i_total_estimated_cost it))).
  change (getitem (itinerary_to_json it) (lit "daily_itineraries"))
    with (Ok (JArr (map day_to_json (i_daily_itineraries it)))).
  change (get_default (itinerary_to_json it) (lit "famous_attractions") (JArr []))
    with (Ok (JArr (map JStr (i_famous_attractions it)))).
  run_steps.
  unfold truediv. cbn [as_int].
  destruct (Z.eqb_spec (num_people req) 0); [contradiction|].
  run_steps. rewrite !add_out_add_out.
  unfold bind at 1.
  match goal with
  | |- context [for_each _ show_day ?W] =>
      destruct (@show_days_run (i_daily_itineraries it) W Hm) as (e1 & E1)
  end.
  rewrite E1. run_steps. rewrite !add_out_add_out.
  unfold bind at 1.
  match goal with
  | |- context [show_list _ Attractions _ ?W] =>
      destruct (@show_list_run (itinerary_to_json it) Attractions
                  (lit "famous_attractions") (i_famous_attractions it) W
                  eq_refl) as (e2 & E2)
  end.
  rewrite E2. rewrite !add_out_add_out.
  unfold bind at 1.
  match goal with
  | |- context [show_list _ Cuisine _ ?W] =>
      destruct (@show_list_run (itinerary_to_json it) Cuisine
                  (lit "local_cuisine") (i_local_cuisine it) W
                  eq_refl) as (e3 & E3)
  end.
  rewrite E3. rewrite !add_out_add_out.
  unfold bind at 1.
  match goal with
  | |- context [show_list _ Tips _ ?W] =>
      destruct (@show_list_run (itinerary_to_json it) Tips
                  (lit "travel_tips") (i_travel_tips it) W
                  eq_refl) as (e4 & E4)
  end.
  rewrite E4. rewrite !add_out_add_out.
  unfold bind at 1.
  match goal with
  | |- context [show_list _ Packing _ ?W] =>
      destruct (@show_list_run (itinerary_to_json it) Packing
                  (lit "packing_suggestions") (i_packing_suggestions it) W
                  eq_refl) as (e5 & E5)
  end.
  rewrite E5. run_steps. rewrite !add_out_add_out.
  match goal with
  | |- exists _ _, _ /\ _ (add_out (?P ++ e5 ++ _) w) = _ => exists (P ++ e5)
  end.
  exists text. split; [reflexivity|].
  rewrite <- (app_assoc _ e5).
  destruct nc; reflexivity.
Qed.

(** X8.  A well-formed itinerary with integer amounts within the range
    of a [float], in which every day has a meal, drawn with the day and
    people inputs within their bounds and no click on "Generate New", is
    drawn to the end without changing the session; the last widgets are
    the two download buttons, the JSON one with the stored value itself
    and the text one with its text export, both named after the current
    destination input. *)
Theorem well_formed_itinerary_is_drawn it req w :
  every_day_has_meals it ->
  numbers_in_float_range it ->
  in_widget_range req ->
  exists evs text,
    to_text (itinerary_to_json it) = Ok text /\
    show_itinerary (itinerary_to_json it) req false w
    = (add_out (evs ++
                [Columns 3;
                 DownloadJson (itinerary_to_json it)
                   (export_filename (destination req) (lit ".json"));
                 DownloadTxt text
                   (export_filename (destination req) (lit ".txt"))]) w,
       Ok tt).
Proof.
  intros Hm _ [_ Hp].
  assert (Hp' : num_people req <> 0%Z) by (unfold people_min in Hp; lia).
  destruct (@show_itinerary_run it req false w Hm Hp') as (evs & text & Et & E).
  exists evs, text. auto.
Qed.

Lemma well_formed_itinerary_is_drawn_witness :
  exists evs text,
    to_text (itinerary_to_json Samples.lisbon_itinerary) = Ok text /\
    show_itinerary (itinerary_to_json Samples.lisbon_itinerary)
      Samples.lisbon_request false Samples.fresh_world
    = (add_out (evs ++
                [Columns 3;
                 DownloadJson (itinerary_to_json Samples.lisbon_itinerary)
                   (lit "ai_itinerary_Lisbon.json");
                 DownloadTxt text (lit "ai_itinerary_Lisbon.txt")])
               Samples.fresh_world,
       Ok tt).
Proof.
  apply (@well_formed_itinerary_is_drawn Samples.lisbon_itinerary
           Samples.lisbon_request Samples.fresh_world).
  - repeat constructor; discriminate.
  - repeat constructor.
  - vm_compute. repeat split; discriminate.
Defined.

(** X9.  With "Generate New" clicked, the same drawing (integer amounts
    within the range of a [float], a meal on every day, inputs within
    their bounds) ends by removing the stored itinerary, keeping the
    saved API key and the environment, and asking for a rerun. *)
Theorem generate_new_clears_itinerary it req w :
  every_day_has_meals it ->
  numbers_in_float_range it ->
  in_widget_range req ->
  let r := show_itinerary (itinerary_to_json it) req true w in
  snd r = Raise RerunException
  /\ sess (fst r) = {| api_key := api_key (sess w); itinerary := None |}
  /\ environ_key (fst r) = environ_key w.
Proof.
  intros Hm _ [_ Hp].
  assert (Hp' : num_people req <> 0%Z) by (unfold people_min in Hp; lia).
  destruct (@show_itinerary_run it req true w Hm Hp') as (evs & text & _ & E).
  cbv zeta. rewrite E. repeat split.
Qed.

Lemma generate_new_clears_itinerary_witness :
  let w := Samples.world_with Samples.lisbon_itinerary in
  let r := show_itinerary (itinerary_to_json Samples.lisbon_itinerary)
             Samples.lisbon_request true w in
  snd r = Raise RerunException
  /\ sess (fst r) = {| api_key := api_key (sess w); itinerary := None |}
  /\ environ_key (fst r) = environ_key w.
Proof.
  apply (@generate_new_clears_itinerary Samples.lisbon_itinerary
           Samples.lisbon_request
           (Samples.world_with Samples.lisbon_itinerary)).
  - repeat constructor; discriminate.
  - repeat constructor.
  - vm_compute. repeat split; discriminate.
Defined.

(** *** Saving the API key *)

(** What a click on the save button leaves behind. *)
Lemma api_key_setup_saved configure inp w :
  save_clicked inp = true ->
  let r := api_key_setup configure inp w in
  environ_key (fst r) = Some (api_key_input inp)
  /\ sess (fst r) = {| api_key := Some (api_key_input inp);
                       itinerary := itinerary (sess w) |}
  /\ resolve_key (environ_key (fst r)) (sess (fst r)) = api_key_input inp
  /\ (snd r = Raise RerunException <->
      api_key_input inp <> [] /\ configure (api_key_input inp) = None).
Proof.
  intros Hs. cbv zeta. unfold api_key_setup. rewrite Hs.
  cbv beta iota delta [bind].
  rewrite setup_gemini_api_spec.
  destruct (resolve_key (environ_key w) (sess w)) as [|c k];
    [|destruct (configure (c :: k))];
    cbv beta iota delta [get_session put_session put_environ];
    rewrite setup_gemini_api_spec;
    cbn [environ_key sess api_key resolve_key add_out fst snd];
    (destruct (api_key_input inp) as [|c' k'] eqn:Ek;
     [ cbn; repeat split; try discriminate; intros [H _]; congruence
     | cbn [resolve_key]; destruct (configure (c' :: k')) eqn:Ec;
       cbn; repeat split; try discriminate; try congruence;
       intros [_ H]; congruence ]).
Qed.


(** X10.  After a click on "Save API Key", the environment variable and
    the session both hold the typed key, whatever they held before, and
    the stored itinerary is untouched; the run ends there with a rerun
    exactly when the typed key is not empty and is accepted. *)
Theorem save_overrides_credentials configure inp w :
  save_clicked inp = true ->
  let r := api_key_setup configure inp w in
  environ_key (fst r) = Some (api_key_input inp)
  /\ sess (fst r) = {| api_key := Some (api_key_input inp);
                       itinerary := itinerary (sess w) |}
  /\ resolve_key (environ_key (fst r)) (sess (fst r)) = api_key_input inp
  /\ (snd r = Raise RerunException <->
      api_key_input inp <> [] /\ configure (api_key_input inp) = None).
Proof.
  intros Hs. cbv zeta. unfold api_key_setup. rewrite Hs.
  cbv beta iota delta [bind].
  rewrite setup_gemini_api_spec.
  destruct (resolve_key (environ_key w) (sess w)) as [|c k];
    [|destruct (configure (c :: k))];
    cbv beta iota delta [get_session put_session put_environ];
    rewrite setup_gemini_api_spec;
    cbn [environ_key sess api_key resolve_key add_out fst snd];
    (destruct (api_key_input inp) as [|c' k'] eqn:Ek;
     [ cbn; repeat split; try discriminate; intros [H _]; congruence
     | cbn [resolve_key]; destruct (configure (c' :: k')) eqn:Ec;
       cbn; repeat split; try discriminate; try congruence;
       intros [_ H]; congruence ]).
Qed.

Lemma save_overrides_credentials_witness :
  let inp := {| form := Samples.lisbon_request; api_key_input := lit "new";
                save_clicked := true; generate_clicked := false;
                new_clicked := false |} in
  let w := {| environ_key := Some (lit "old");
              sess := Samples.fresh_session; out := [] |} in
  let r := api_key_setup Samples.configure_ok inp w in
  environ_key (fst r) = Some (lit "new")
  /\ sess (fst r) = {| api_key := Some (lit "new"); itinerary := None |}
  /\ resolve_key (environ_key (fst r)) (sess (fst r)) = lit "new"
  /\ (snd r = Raise RerunException <->
      lit "new" <> [] /\ Samples.configure_ok (lit "new") = None).
Proof.
  apply (@save_overrides_credentials Samples.configure_ok
           {| form := Samples.lisbon_request; api_key_input := lit "new";
              save_clicked := true; generate_clicked := false;
              new_clicked := false |}
           {| environ_key := Some (lit "old");
              sess := Samples.fresh_session; out := [] |}).
  reflexivity.
Defined.

(** *** The stored itinerary across a run *)

Lemma keeps_itinerary_of_state {A} (m : M A) :
  keeps_state m -> keeps_itinerary m.
Proof. intros H w. destruct (H w) as [_ Hs]. now rewrite Hs. Qed.

Lemma keeps_itinerary_bind {A B} (m : M A) (k : A -> M B) :
  keeps_itinerary m -> (forall a, keeps_itinerary (k a)) ->
  keeps_itinerary (bind m k).
Proof.
  intros Hm Hk w. unfold bind. specialize (Hm w).
  destruct (m w) as [w' [a|e]]; cbn [fst] in *.
  - now rewrite Hk.
  - assumption.
Qed.

Lemma setup_keeps configure : keeps_state (setup_gemini_api configure).
Proof.
  intros w. destruct (setup_gemini_api_world configure w). auto.
Qed.

Lemma api_key_setup_keeps_itinerary configure inp :
  keeps_itinerary (api_key_setup configure inp).
Proof.
  intros w. destruct (save_clicked inp) eqn:Hs.
  - destruct (@api_key_setup_saved configure inp w Hs) as (_ & E & _).
    now rewrite E.
  - unfold api_key_setup. rewrite Hs.
    apply keeps_itinerary_bind.
    + apply keeps_itinerary_of_state, setup_keeps.
    + intros _. apply keeps_itinerary_of_state, keeps_ret.
Qed.

Lemma display_keeps inp ac :
  new_clicked inp = false -> keeps_state (display inp ac).
Proof.
  intros Hn w. unfold display, bind, get_session. cbn [fst snd].
  destruct (itinerary (sess w)) as [data|].
  - rewrite Hn. apply show_itinerary_keeps.
  - split; reflexivity.
Qed.

(** X12.  A run in which neither "Generate" nor "Generate New" was
    clicked leaves the stored itinerary as it was, whatever else
    happened in it (a key saved, the drawing failing). *)
Theorem itinerary_changes_only_by_buttons json_loads client configure inp w :
  generate_clicked inp = false ->
  new_clicked inp = false ->
  itinerary (sess (fst (script_run json_loads client configure inp w)))
  = itinerary (sess w).
Proof.
  intros Hg Hn. revert w.
  change (keeps_itinerary (script_run json_loads client configure inp)).
  unfold script_run.
  apply keeps_itinerary_bind; [apply api_key_setup_keeps_itinerary|].
  intros _. apply keeps_itinerary_bind;
    [apply keeps_itinerary_of_state, setup_keeps|].
  intros ac. apply keeps_itinerary_of_state.
  unfold after_setup, footer. rewrite Hg. cbn [andb].
  repeat (first [apply display_keeps; assumption | keeps_step]).
  destruct ac; keeps_step.
Qed.

Lemma itinerary_changes_only_by_buttons_witness :
  let w := Samples.world_with Samples.two_day_itinerary in
  itinerary (sess (fst (script_run json_loads_ref Samples.reply_error
                          Samples.configure_ok
                          (Samples.no_click Samples.lisbon_request) w)))
  = itinerary (sess w).
Proof.
  apply (@itinerary_changes_only_by_buttons json_loads_ref Samples.reply_error
           Samples.configure_ok (Samples.no_click Samples.lisbon_request)
           (Samples.world_with Samples.two_day_itinerary)); reflexivity.
Defined.

(** *** The export file names *)

Lemma replace_char_spaces dest :
  existsb (Ascii.eqb " "%char) (replace_char " "%char "_"%char dest) = false.
Proof.
  induction dest as [|c dest IH]; [reflexivity|].
  cbn [replace_char map existsb]. fold (replace_char " "%char "_"%char dest).
  rewrite IH, orb_false_r.
  destruct (Ascii.eqb c " "%char) eqn:E; [reflexivity|].
  now rewrite Ascii.eqb_sym.
Qed.

(** X13.  The name of an export file has no space, whatever the
    destination input holds, when its extension has none; it is as long
    as the prefix, the destination and the extension together. *)
Theorem export_filename_has_no_space dest ext :
  existsb (Ascii.eqb " "%char) ext = false ->
  existsb (Ascii.eqb " "%char) (export_filename dest ext) = false
  /\ List.length (export_filename dest ext)
     = 13 + List.length dest + List.length ext.
Proof.
  intros He. unfold export_filename. split.
  - rewrite !existsb_app, replace_char_spaces, He. reflexivity.
  - rewrite !length_app. unfold replace_char. rewrite length_map.
    cbn. lia.
Qed.

Lemma export_filename_has_no_space_witness :
  existsb (Ascii.eqb " "%char)
          (export_filename (lit "New York City") (lit ".json")) = false
  /\ List.length (export_filename (lit "New York City") (lit ".json"))
     = 13 + List.length (lit "New York City") + List.length (lit ".json").
Proof.
  apply (@export_filename_has_no_space (lit "New York City") (lit ".json")).
  reflexivity.
Defined.

(** *** The prompt *)

Lemma occurs_here x xs t :
  occurs_in_order xs t -> occurs_in_order (x :: xs) (x ++ t).
Proof. intros H. exact (occurs_cons x [] H). Qed.

(** X14.  The prompt names, one after the other: the number of days, the
    destination, the number of people, the group type, the budget, the
    interests joined by commas, the pace, the accommodation, then again
    the pace, the destination and the budget. *)
Theorem build_prompt_mentions_request req :
  occurs_in_order
    [ str_of_Z (num_days req); destination req; str_of_Z (num_people req);
      group_text (group_type req); budget_text (budget req);
      join (lit ", ") (interests req); pace_text (pace req);
      accommodation_text (accommodation req); pace_text (pace req);
      destination req; budget_text (budget req) ]
    (build_prompt req).
Proof.
  unfold build_prompt, prompt_schema. cbn [app join].
  repeat rewrite <- app_assoc.
  repeat (first [ apply occurs_nil | apply occurs_here | apply occurs_prefix ]).
Qed.

(** *** A fenced block inside prose *)

Lemma no_backtick_cons c s :
  no_backtick (c :: s) = true ->
  Ascii.eqb "`"%char c = false /\ no_backtick s = true.
Proof.
  unfold no_backtick. cbn [existsb]. rewrite negb_orb.
  intros H. apply andb_true_iff in H as [H1 H2].
  split; [now apply negb_true_iff in H1|assumption].
Qed.

Lemma no_backtick_app a b :
  no_backtick (a ++ b) = no_backtick a && no_backtick b.
Proof. unfold no_backtick. now rewrite existsb_app, negb_orb. Qed.

Lemma starts_with_clean sep' s :
  no_backtick s = true -> starts_with ("`"%char :: sep') s = false.
Proof.
  destruct s as [|c s]; [reflexivity|].
  intros H. apply no_backtick_cons in H as [H _].
  cbn [starts_with]. now rewrite H.
Qed.

(** A pattern that begins with a backtick is not found across a text
    without backticks. *)
Lemma contains_skip_clean sep' a x :
  no_backtick a = true ->
  contains ("`"%char :: sep') (a ++ x) = contains ("`"%char :: sep') x.
Proof.
  induction a as [|c a IH]; intros H; [reflexivity|].
  apply no_backtick_cons in H as [Hc Ha].
  change ((c :: a) ++ x) with (c :: (a ++ x)).
  cbn [contains starts_with]. rewrite Hc. cbn [andb orb]. auto.
Qed.

Lemma contains_clean sep' a :
  no_backtick a = true -> contains ("`"%char :: sep') a = false.
Proof.
  intros H. rewrite <- (app_nil_r a). now rewrite contains_skip_clean.
Qed.

Lemma no_backtick_lstrip a : no_backtick a = true -> no_backtick (lstrip a) = true.
Proof.
  intros H. destruct (lstrip_suffix a) as (p & E & _).
  rewrite E, no_backtick_app in H. now apply andb_true_iff in H as [_ H].
Qed.

Lemma no_backtick_rstrip a : no_backtick a = true -> no_backtick (rstrip a) = true.
Proof.
  intros H. destruct (rstrip_prefix a) as (p & E & _).
  rewrite E, no_backtick_app in H. now apply andb_true_iff in H as [H _].
Qed.

Lemma rstrip_nil_ws s : rstrip s = [] -> forallb is_space s = true.
Proof.
  unfold rstrip. intros H.
  assert (E : lstrip (rev s) = []).
  { rewrite <- (rev_involutive (lstrip (rev s))), H. reflexivity. }
  apply lstrip_nil_ws in E. rewrite <- (rev_involutive s).
  now apply forallb_rev.
Qed.

Lemma rstrip_app_keep y c :
  rstrip c <> [] -> rstrip (y ++ c) = y ++ rstrip c.
Proof.
  intros H. unfold rstrip in *. rewrite rev_app_distr.
  rewrite lstrip_app_keep.
  - now rewrite rev_app_distr, rev_involutive.
  - intros E. apply H. now rewrite E.
Qed.

(** Around a text that begins and ends with a character that is not
    white space, [strip] works on the two sides. *)
Lemma strip_around a p x q c :
  is_space p = false -> is_space q = false ->
  strip (a ++ (p :: x ++ [q]) ++ c) = lstrip a ++ (p :: x ++ [q]) ++ rstrip c.
Proof.
  intros Hp Hq. unfold strip.
  assert (L : lstrip (a ++ (p :: x ++ [q]) ++ c)
              = lstrip a ++ (p :: x ++ [q]) ++ c).
  { destruct (lstrip a) as [|h t] eqn:E.
    - apply lstrip_nil_ws in E. rewrite lstrip_app_ws by assumption.
      cbn [app lstrip]. now rewrite Hp.
    - rewrite lstrip_app_keep by congruence. now rewrite E. }
  rewrite L.
  rewrite (app_assoc (lstrip a)).
  destruct (rstrip c) as [|h t] eqn:E.
  - apply rstrip_nil_ws in E. rewrite rstrip_app_ws by assumption.
    rewrite app_nil_r.
    change (lstrip a ++ p :: x ++ [q]) with (lstrip a ++ (p :: x) ++ [q]).
    rewrite !app_assoc. now apply rstrip_keep.
  - rewrite rstrip_app_keep by (rewrite E; discriminate).
    rewrite E, <- app_assoc. reflexivity.
Qed.

Lemma starts_with_split p s :
  starts_with p s = true -> exists r, s = p ++ r.
Proof.
  revert s. induction p as [|c p IH]; intros s H.
  - now exists s.
  - destruct s as [|d s]; [discriminate|]. cbn [starts_with] in H.
    apply andb_true_iff in H as [H1 H2]. apply Ascii.eqb_eq in H1. subst d.
    destruct (IH s H2) as (r & ->). now exists r.
Qed.

(** After a closing fence, the [json] fence can only be that fence
    followed by [json]. *)
Lemma closing_fence_no_json c :
  no_backtick c = true ->
  starts_with (lit "json") c = false ->
  contains fence_json (fence ++ c) = false.
Proof.
  intros Hc Hj.
  unfold fence, fence_json. cbn [lit list_ascii_of_string app].
  destruct c as [|h c].
  - reflexivity.
  - pose proof (no_backtick_cons _ _ Hc) as [Hh Hc'].
    assert (Hcc : contains (lit "```json") (h :: c) = false)
      by (now apply contains_clean).
    cbn [contains starts_with lit list_ascii_of_string] in *.
    rewrite ?Ascii.eqb_refl, ?Hh. cbn [andb orb].
    apply orb_false_iff in Hcc as [_ Hcc]. rewrite Hcc.
    cbn [starts_with lit list_ascii_of_string] in Hj. rewrite Hj.
    reflexivity.
Qed.

Lemma contains_of_starts p x : starts_with p x = true -> contains p x = true.
Proof. intros H. destruct x; cbn [contains]; now rewrite H. Qed.

Lemma skip_clean_fence a x :
  no_backtick a = true -> contains fence (a ++ x) = contains fence x.
Proof. apply (contains_skip_clean (lit "``")). Qed.

Lemma skip_clean_fence_json a x :
  no_backtick a = true -> contains fence_json (a ++ x) = contains fence_json x.
Proof. apply (contains_skip_clean (lit "``json")). Qed.

Lemma clean_no_fence a : no_backtick a = true -> contains fence a = false.
Proof. apply (contains_clean (lit "``")). Qed.

Lemma fence_json_shape b :
  fence_json ++ b ++ fence
  = "`"%char :: (lit "``json" ++ b ++ lit "``") ++ ["`"%char].
Proof.
  unfold fence_json, fence. cbn [lit list_ascii_of_string app].
  repeat rewrite <- app_assoc. reflexivity.
Qed.

Lemma fence_shape b :
  fence ++ b ++ fence = "`"%char :: (lit "``" ++ b ++ lit "``") ++ ["`"%char].
Proof.
  unfold fence. cbn [lit list_ascii_of_string app].
  repeat rewrite <- app_assoc. reflexivity.
Qed.

(** The first piece of a text that goes on with a fence. *)
Lemma first_piece_before_fence b c :
  no_backtick b = true ->
  exists l, split fence (b ++ fence ++ c) = b :: l.
Proof.
  intros Hb. rewrite split_first; [eauto|discriminate|].
  rewrite skip_clean_fence by assumption. reflexivity.
Qed.

(** The piece after an opening [json] fence, cut at the next fence. *)
Lemma block_after_json_fence b c :
  no_backtick b = true -> no_backtick c = true ->
  exists p l,
    split fence_json (b ++ fence ++ c) = p :: l
    /\ exists l', split fence p = b :: l'.
Proof.
  intros Hb Hc.
  destruct (starts_with (lit "json") c) eqn:Ej.
  - apply starts_with_split in Ej as (c' & ->).
    replace (b ++ fence ++ lit "json" ++ c') with (b ++ fence_json ++ c')
      by (unfold fence, fence_json; cbn [lit list_ascii_of_string app];
          reflexivity).
    rewrite split_first; [|discriminate|].
    + exists b. eexists. split; [reflexivity|].
      exists []. apply split_none. now apply clean_no_fence.
    + rewrite skip_clean_fence_json by assumption. reflexivity.
  - assert (Hn : contains fence_json (b ++ fence ++ c) = false).
    { rewrite skip_clean_fence_json by assumption.
      now apply closing_fence_no_json. }
    rewrite (split_none _ _ Hn). exists (b ++ fence ++ c). eexists.
    split; [reflexivity|]. now apply first_piece_before_fence.
Qed.

(** X15.  For every reply made of prose, a [json] code fence, a content,
    a closing fence and more prose, none of the three texts holding a
    backtick, the cleaning returns the content, trimmed: the prose on
    both sides is dropped. *)
Theorem json_block_inside_prose a b c :
  no_backtick a = true -> no_backtick b = true -> no_backtick c = true ->
  clean_response (a ++ fence_json ++ b ++ fence ++ c) = Ok (strip b).
Proof.
  intros Ha Hb Hc. unfold clean_response.
  assert (Hs : strip (a ++ fence_json ++ b ++ fence ++ c)
               = lstrip a ++ fence_json ++ (b ++ fence ++ rstrip c)).
  { replace (a ++ fence_json ++ b ++ fence ++ c)
      with (a ++ (fence_json ++ b ++ fence) ++ c)
      by (now rewrite <- !app_assoc).
    rewrite fence_json_shape, strip_around by reflexivity.
    rewrite <- fence_json_shape. now rewrite <- !app_assoc. }
  rewrite Hs.
  assert (Hin : contains fence_json
                  (lstrip a ++ fence_json ++ (b ++ fence ++ rstrip c)) = true).
  { apply contains_app_r, contains_of_starts, starts_with_app. }
  rewrite Hin.
  rewrite split_first; [|discriminate|].
  - destruct (@block_after_json_fence b (rstrip c) Hb
                (no_backtick_rstrip _ Hc)) as (p & l & E1 & l' & E2).
    rewrite E1. cbn [index nth_error rbind]. rewrite E2. reflexivity.
  - rewrite skip_clean_fence_json by (now apply no_backtick_lstrip).
    reflexivity.
Qed.

Lemma json_block_inside_prose_witness :
  clean_response (lit "Here is your plan: " ++ fence_json
                    ++ jlit " {'overview': 'x'} " ++ fence ++ lit " Enjoy!")
  = Ok (strip (jlit " {'overview': 'x'} ")).
Proof.
  apply (@json_block_inside_prose (lit "Here is your plan: ")
           (jlit " {'overview': 'x'} ") (lit " Enjoy!")); reflexivity.
Defined.

Lemma contains_cons p c s :
  contains p (c :: s) = starts_with p (c :: s) || contains p s.
Proof. reflexivity. Qed.

(** Where a [json] fence can begin at a plain fence. *)
Lemma json_fence_at_fence y :
  contains fence_json (fence ++ y)
  = starts_with (lit "json") y || starts_with (lit "`json") y
    || starts_with (lit "``json") y || contains fence_json y.
Proof.
  unfold fence. cbn [lit list_ascii_of_string app].
  rewrite !contains_cons. unfold fence_json.
  cbn [starts_with lit list_ascii_of_string].
  rewrite !Ascii.eqb_refl. cbn [andb].
  now rewrite !orb_assoc.
Qed.

Lemma plain_block_no_json b c :
  no_backtick b = true -> no_backtick c = true ->
  starts_with (lit "json") b = false ->
  starts_with (lit "json") c = false ->
  contains fence_json (fence ++ b ++ fence ++ c) = false.
Proof.
  intros Hb Hc Hjb Hjc. rewrite json_fence_at_fence.
  assert (H4 : contains fence_json (b ++ fence ++ c) = false).
  { rewrite skip_clean_fence_json by assumption.
    now apply closing_fence_no_json. }
  rewrite H4, orb_false_r.
  destruct b as [|h b].
  - cbn [app]. unfold fence. cbn [lit list_ascii_of_string app starts_with].
    reflexivity.
  - apply no_backtick_cons in Hb as [Hh Hb].
    assert (H1 : starts_with (lit "json") ((h :: b) ++ fence ++ c) = false).
    { unfold fence. cbn [lit list_ascii_of_string app].
      change (h :: b ++ "`"%char :: "`"%char :: "`"%char :: c)
        with ((h :: b) ++ "`"%char :: ("`"%char :: "`"%char :: c)).
      rewrite starts_with_stop by reflexivity. exact Hjb. }
    rewrite H1.
    cbn [app starts_with lit list_ascii_of_string]. rewrite Hh. reflexivity.
Qed.

(** X16.  The same for a plain code fence when neither the content nor
    the prose after the block begins with [json]: the cleaning returns
    the content, trimmed. *)
Theorem plain_block_inside_prose a b c :
  no_backtick a = true -> no_backtick b = true -> no_backtick c = true ->
  starts_with (lit "json") b = false ->
  starts_with (lit "json") c = false ->
  clean_response (a ++ fence ++ b ++ fence ++ c) = Ok (strip b).
Proof.
  intros Ha Hb Hc Hjb Hjc. unfold clean_response.
  assert (Hs : strip (a ++ fence ++ b ++ fence ++ c)
               = lstrip a ++ fence ++ (b ++ fence ++ rstrip c)).
  { replace (a ++ fence ++ b ++ fence ++ c)
      with (a ++ (fence ++ b ++ fence) ++ c)
      by (now rewrite <- !app_assoc).
    rewrite fence_shape, strip_around by reflexivity.
    rewrite <- fence_shape. now rewrite <- !app_assoc. }
  rewrite Hs.
  assert (Hjc' : starts_with (lit "json") (rstrip c) = false).
  { destruct (starts_with (lit "json") (rstrip c)) eqn:E; [|reflexivity].
    destruct (rstrip_prefix c) as (ws & Ec & _).
    rewrite Ec, (starts_with_app_mono _ _ ws E) in Hjc. discriminate. }
  assert (Hnj : contains fence_json
                  (lstrip a ++ fence ++ (b ++ fence ++ rstrip c)) = false).
  { rewrite skip_clean_fence_json by (now apply no_backtick_lstrip).
    apply plain_block_no_json; auto using no_backtick_rstrip. }
  rewrite Hnj.
  assert (Hin : contains fence
                  (lstrip a ++ fence ++ (b ++ fence ++ rstrip c)) = true).
  { apply contains_app_r, contains_of_starts, starts_with_app. }
  rewrite Hin.
  rewrite split_first; [|discriminate|].
  - destruct (@first_piece_before_fence b (rstrip c) Hb) as (l & E1).
    rewrite E1. cbn [index nth_error rbind].
    rewrite (split_none _ _ (clean_no_fence _ Hb)). reflexivity.
  - rewrite skip_clean_fence by (now apply no_backtick_lstrip).
    reflexivity.
Qed.

Lemma plain_block_inside_prose_witness :
  clean_response (lit "Sure! " ++ fence ++ jlit " {'overview': 'x'} "
                    ++ fence ++ lit " Bye.")
  = Ok (strip (jlit " {'overview': 'x'} ")).
Proof.
  apply (@plain_block_inside_prose (lit "Sure! ")
           (jlit " {'overview': 'x'} ") (lit " Bye.")); reflexivity.
Defined.
